(** * Real-time chat server: vote ledger, cache mirror, connection registry

    A shallow embedding of the Go back end (package [main]): the message
    and vote tables behind [database/sql], the Redis hash used as a tally
    cache, the [clients] map of live WebSocket connections, the
    [handleMessages] dispatcher and the HTTP handlers that drive them.

    Every fallible external call (a query, an exec, a commit, a Redis
    command, a WebSocket upgrade) takes a boolean saying whether the
    collaborator fails on that call, so that each error branch of a
    handler can be entered.  The integer the store reads from the id text
    of a vote request is fixed for decimal numerals and a parameter of the
    development for every other text ([IntegerInput]).  Requests are
    handled one at a time. *)

From Stdlib Require Import ZArith String Lia DecimalPos DecimalZ DecimalString.
From stdpp Require Import base numbers strings list gmap fin_maps sorting.

Open Scope Z_scope.

(** ** Go values *)

(** Go's [int] on the 64-bit targets the server is built for. *)
Definition int_wrap (z : Z) : Z := (z + 2 ^ 63) mod 2 ^ 64 - 2 ^ 63.

Definition int_add (a b : Z) : Z := int_wrap (a + b).

(** [fmt.Sprintf("%d", id)], also what [Scan] yields when an integer
    column is read into a Go string. *)
Definition fmt_d (id : Z) : string := NilZero.string_of_int (Z.to_int id).

(** [type Message struct] *)
Record Message : Type := mkMessage {
  ID : string;
  Sender : string;
  Receiver : string;
  Content : string;
  Upvotes : Z;
  Downvotes : Z
}.

#[export] Instance Message_eq_dec : EqDecision Message.
Proof. solve_decision. Defined.

(** ** HTTP responses *)

Module Http.
Definition StatusSwitchingProtocols : Z := 101.
Definition StatusOK : Z := 200.
Definition StatusCreated : Z := 201.
Definition StatusBadRequest : Z := 400.
Definition StatusNotFound : Z := 404.
Definition StatusInternalServerError : Z := 500.
End Http.

(** The JSON bodies the handlers write with [c.JSON]. *)
Inductive Body : Type :=
| JError (e : string)               (* gin.H{"error": e} *)
| JText (m : string)                (* gin.H{"message": "..."} *)
| JMessage (m : Message)            (* gin.H{"message": msg} *)
| JMessages (l : list Message)      (* gin.H{"messages": messages} *)
| NotFoundPage                      (* http.NotFound *)
| Upgraded.                         (* the connection was taken over *)

Record Response : Type := mkResponse { status : Z; body : Body }.

Definition fail500 (e : string) : Response :=
  mkResponse Http.StatusInternalServerError (JError e).

(** ** The durable store *)

(** The id in the path of a vote request reaches the store as text, as
    the parameter of [WHERE id = $1] and of [message_id = $2], and the
    store reads an integer from it.  A decimal numeral, with or without
    a minus sign and leading zeros, is read as its value.  What the store
    makes of any other text (blanks, a plus sign, other notations) is not
    decided by this program: it is [other_text], with [None] for a text
    the store refuses.  A refused text selects no row; the error the
    store answers such a statement with is the fault flag that the
    handlers take for that statement. *)
Class IntegerInput : Type := other_text : string → option Z.

Definition decimal (text : string) : option Z :=
  Z.of_int <$> NilZero.int_of_string text.

Definition read_int `{!IntegerInput} (text : string) : option Z :=
  match decimal text with
  | Some z => Some z
  | None => other_text text
  end.

(** A store that reads decimal numerals and refuses everything else. *)
Definition decimal_only : IntegerInput := λ _, None.

Section Server.
Context {store_input : IntegerInput}.

(** A row of [messages].  The [timestamp] column is filled by the store
    on insert; the table is kept in insertion order, which is the order
    [ORDER BY timestamp] returns. *)
Record MessageRow : Type := mkMessageRow {
  row_id : Z;
  row_sender : string;
  row_receiver : string;
  row_content : string;
  row_upvotes : Z;
  row_downvotes : Z
}.

(** A row of [user_votes].  The schema file is not part of the sources;
    [message_id] is taken to be an integer column, as [messages.id] is
    (the handlers scan that one into an [int]). *)
Record VoteRow : Type := mkVoteRow {
  user_id : string;
  message_id : Z;
  vote_type : string
}.

Record DB : Type := mkDB {
  messages : list MessageRow;
  user_votes : list VoteRow;
  next_id : Z                       (* the sequence behind messages.id *)
}.

(** Outcome of [QueryRow(...).Scan(...)]. *)
Inductive QueryResult (A : Type) : Type :=
| Row (a : A)
| ErrNoRows
| QueryError.
Arguments Row {A} a.
Arguments ErrNoRows {A}.
Arguments QueryError {A}.

Definition QueryRow {A : Type} (fails : bool) (rows : list A) : QueryResult A :=
  if fails then QueryError
  else match rows with
       | r :: _ => Row r
       | [] => ErrNoRows
       end.

(** Outcome of [Exec]: the new contents, or an error. *)
Definition Exec (fails : bool) (r : option DB) : option DB :=
  if fails then None else r.

(** [WHERE user_id = $1 AND message_id = $2] *)
Definition vote_of (userId messageId : string) (v : VoteRow) : Prop :=
  user_id v = userId ∧ read_int messageId = Some (message_id v).

#[global] Instance vote_of_dec u m v : Decision (vote_of u m v).
Proof. unfold vote_of. apply _. Defined.

(** [WHERE id = $1]: the row whose id is the integer the store reads
    from the parameter; a text the store reads nothing from selects no
    row. *)
Definition has_id (messageId : string) (r : MessageRow) : Prop :=
  read_int messageId = Some (row_id r).

#[global] Instance has_id_dec m r : Decision (has_id m r).
Proof. unfold has_id. apply _. Defined.

Definition to_message (r : MessageRow) : Message :=
  mkMessage (fmt_d (row_id r)) (row_sender r) (row_receiver r)
            (row_content r) (row_upvotes r) (row_downvotes r).

(** [SELECT vote_type FROM user_votes WHERE user_id = $1 AND message_id = $2] *)
Definition select_vote_type (userId messageId : string) (d : DB) : list string :=
  vote_type <$> filter (vote_of userId messageId) (user_votes d).

(** [SELECT upvotes, downvotes FROM messages WHERE id = $1] *)
Definition select_counts (messageId : string) (d : DB) : list (Z * Z) :=
  (λ r, (row_upvotes r, row_downvotes r)) <$> filter (has_id messageId) (messages d).

(** [SELECT id, sender, receiver, content, upvotes, downvotes FROM messages
    WHERE id = $1] *)
Definition select_message (messageId : string) (d : DB) : list Message :=
  to_message <$> filter (has_id messageId) (messages d).

(** [DELETE FROM user_votes WHERE user_id = $1 AND message_id = $2] *)
Definition delete_vote (userId messageId : string) (d : DB) : DB :=
  mkDB (messages d)
       (filter (λ v, ¬ vote_of userId messageId v) (user_votes d))
       (next_id d).

(** [UPDATE user_votes SET vote_type = ... WHERE user_id = $1 AND message_id = $2] *)
Definition update_vote_type (new_type userId messageId : string) (d : DB) : DB :=
  mkDB (messages d)
       ((λ v, if decide (vote_of userId messageId v)
              then mkVoteRow (user_id v) (message_id v) new_type
              else v) <$> user_votes d)
       (next_id d).

(** Modelled from the spec: the schema file [create_table_user_votes.sql]
    is not part of the sources; the persisted schema gives [user_votes] as
    "unique on (user_id, message_id)", so an insert for a pair that has a
    row is refused.

    [INSERT INTO user_votes (user_id, message_id, vote_type) VALUES ($1, $2, ...)] *)
Definition insert_vote (userId messageId new_type : string) (d : DB) : option DB :=
  match read_int messageId with
  | Some id =>
      match filter (vote_of userId messageId) (user_votes d) with
      | [] => Some (mkDB (messages d)
                         (user_votes d ++ [mkVoteRow userId id new_type])
                         (next_id d))
      | _ :: _ => None
      end
  | None => None
  end.

(** [UPDATE messages SET upvotes = upvotes + $1, downvotes = downvotes + $2
    WHERE id = $3] *)
Definition update_counts (upvotesChange downvotesChange : Z) (messageId : string)
    (d : DB) : DB :=
  mkDB ((λ r, if decide (has_id messageId r)
              then mkMessageRow (row_id r) (row_sender r) (row_receiver r)
                     (row_content r)
                     (row_upvotes r + upvotesChange)
                     (row_downvotes r + downvotesChange)
              else r) <$> messages d)
       (user_votes d)
       (next_id d).

(** [INSERT INTO messages (sender, receiver, content, upvotes, downvotes)
    VALUES ($1, $2, $3, 0, 0) RETURNING id] *)
Definition insert_message (sender receiver content : string) (d : DB) : DB * Z :=
  (mkDB (messages d ++ [mkMessageRow (next_id d) sender receiver content 0 0])
        (user_votes d)
        (next_id d + 1),
   next_id d).

(** [SELECT ... FROM messages WHERE (sender = $1 AND receiver = $2)
    OR (sender = $2 AND receiver = $1) ORDER BY timestamp] *)
Definition between (sender receiver : string) (r : MessageRow) : Prop :=
  (row_sender r = sender ∧ row_receiver r = receiver) ∨
  (row_sender r = receiver ∧ row_receiver r = sender).

#[global] Instance between_dec a b r : Decision (between a b r).
Proof. unfold between. apply _. Defined.

Definition select_conversation (sender receiver : string) (d : DB) : list Message :=
  to_message <$> filter (between sender receiver) (messages d).

(** ** The tally cache (Redis) *)

(** [rdb.HSet(ctx, key, field, value)].  The handlers drop the command's
    result, so a failed command only shows as an unchanged cache. *)
Definition HSet (fails : bool) (key field : string) (value : Z)
    (cache : gmap string (gmap string Z)) : gmap string (gmap string Z) :=
  if fails then cache
  else <[key := <[field := value]> (default ∅ (cache !! key))]> cache.

(** [fmt.Sprintf("message:%s", messageId)] *)
Definition cache_key (messageId : string) : string := "message:" +:+ messageId.

(** ** Live connections and the [clients] registry *)

(** One WebSocket connection together with the [wsHandler] call that
    serves it.  [ws_broken] is set when the transport towards the peer is
    lost; [ws_sent] lists what [WriteJSON] has pushed, oldest first. *)
Record WsConn : Type := mkWsConn {
  ws_user : string;                 (* userID of the serving wsHandler *)
  ws_closed : bool;                 (* Conn.Close() was called *)
  ws_broken : bool;
  ws_done : bool;                   (* the serving wsHandler returned *)
  ws_sent : list Message
}.

(** [type Client struct]; [Conn] is the index of the connection. *)
Record Client : Type := mkClient { UserID : string; Conn : nat }.

Record Server : Type := mkServer {
  db : DB;
  rdb : gmap string (gmap string Z);
  clients : gmap string Client;     (* clients = make(map[string]*Client) *)
  conns : list WsConn
}.

Definition set_db (d : DB) (s : Server) : Server :=
  mkServer d (rdb s) (clients s) (conns s).

Definition set_rdb (c : gmap string (gmap string Z)) (s : Server) : Server :=
  mkServer (db s) c (clients s) (conns s).

(** [conn.WriteJSON(msg)]: an error on a closed or broken connection. *)
Definition WriteJSON (c : nat) (msg : Message) (cs : list WsConn) : option (list WsConn) :=
  match cs !! c with
  | Some w =>
      if ws_closed w || ws_broken w then None
      else Some (<[c := mkWsConn (ws_user w) (ws_closed w) (ws_broken w)
                           (ws_done w) (ws_sent w ++ [msg])]> cs)
  | None => None
  end.

(** [conn.Close()] *)
Definition Close (c : nat) (cs : list WsConn) : list WsConn :=
  match cs !! c with
  | Some w => <[c := mkWsConn (ws_user w) true (ws_broken w) (ws_done w) (ws_sent w)]> cs
  | None => cs
  end.

(** [func sendMessageToUser(userID string, msg Message)] *)
Definition sendMessageToUser (userID : string) (msg : Message) (s : Server) : Server :=
  match clients s !! userID with
  | Some client =>
      match WriteJSON (Conn client) msg (conns s) with
      | Some cs => mkServer (db s) (rdb s) (clients s) cs
      | None =>
          mkServer (db s) (rdb s)
                   (delete userID (clients s))
                   (Close (Conn client) (conns s))
      end
  | None => s
  end.

(** One turn of the loop in [func handleMessages()]: the message taken
    from [broadcast] goes to its sender, then to its receiver.  The
    channel has no buffer, so [broadcast <- msg] hands the message to
    this turn directly. *)
Definition handleMessages (msg : Message) (s : Server) : Server :=
  sendMessageToUser (Receiver msg) msg (sendMessageToUser (Sender msg) msg s).

(** ** Handlers *)

(** What can go wrong outside the program during a vote request. *)
Record VoteFaults : Type := mkVoteFaults {
  begin_fails : bool;               (* db.Begin() *)
  vote_query_fails : bool;          (* SELECT vote_type ... *)
  counts_query_fails : bool;        (* SELECT upvotes, downvotes ... *)
  vote_exec_fails : bool;           (* DELETE / UPDATE / INSERT on user_votes *)
  counts_exec_fails : bool;         (* UPDATE messages ... *)
  hset_upvotes_fails : bool;        (* rdb.HSet(..., "upvotes", ...) *)
  hset_downvotes_fails : bool;      (* rdb.HSet(..., "downvotes", ...) *)
  commit_fails : bool;              (* tx.Commit() *)
  reread_fails : bool               (* the SELECT after the commit *)
}.

Definition no_faults : VoteFaults :=
  mkVoteFaults false false false false false false false false false.

Definition vote_ok : Response :=
  mkResponse Http.StatusOK (JText "Vote toggled successfully").

(** The part of both vote handlers after the vote row was written: the
    counter update, the two cache writes, the commit, the re-read and the
    broadcast.  [tx] is the transaction's view of the store; a rollback
    drops it, a commit installs it. *)
Definition finish_vote (f : VoteFaults) (messageId : string)
    (upvotesBefore downvotesBefore upvotesChange downvotesChange : Z)
    (tx : DB) (s : Server) : Server * Response :=
  match Exec (counts_exec_fails f)
             (Some (update_counts upvotesChange downvotesChange messageId tx)) with
  | None => (s, fail500 "Failed to update vote counts")
  | Some tx' =>
      let s1 := set_rdb (HSet (hset_upvotes_fails f) (cache_key messageId) "upvotes"
                              (int_add upvotesBefore upvotesChange) (rdb s)) s in
      let s2 := set_rdb (HSet (hset_downvotes_fails f) (cache_key messageId) "downvotes"
                              (int_add downvotesBefore downvotesChange) (rdb s1)) s1 in
      if commit_fails f then (s2, fail500 "Failed to commit transaction")
      else
        let s3 := set_db tx' s2 in
        let s4 := match QueryRow (reread_fails f) (select_message messageId (db s3)) with
                  | Row updatedMessage => handleMessages updatedMessage s3
                  | _ => s3
                  end in
        (s4, vote_ok)
  end.

(** [func upvoteMessageHandler(c *gin.Context)] *)
Definition upvoteMessageHandler (f : VoteFaults) (userId messageId : string)
    (s : Server) : Server * Response :=
  if begin_fails f then (s, fail500 "Failed to start transaction")
  else
    let tx := db s in
    match QueryRow (vote_query_fails f) (select_vote_type userId messageId tx) with
    | QueryError => (s, fail500 "Failed to fetch existing vote")
    | found =>
        let existingVote := match found with Row v => v | _ => "" end in
        match QueryRow (counts_query_fails f) (select_counts messageId tx) with
        | Row (upvotesBefore, downvotesBefore) =>
            if decide (existingVote = "upvote") then
              match Exec (vote_exec_fails f) (Some (delete_vote userId messageId tx)) with
              | None => (s, fail500 "Failed to remove upvote")
              | Some tx' =>
                  finish_vote f messageId upvotesBefore downvotesBefore (-1) 0 tx' s
              end
            else if decide (existingVote = "downvote") then
              match Exec (vote_exec_fails f)
                         (Some (update_vote_type "upvote" userId messageId tx)) with
              | None => (s, fail500 "Failed to update vote")
              | Some tx' =>
                  finish_vote f messageId upvotesBefore downvotesBefore 1 (-1) tx' s
              end
            else
              match Exec (vote_exec_fails f) (insert_vote userId messageId "upvote" tx) with
              | None => (s, fail500 "Failed to add upvote")
              | Some tx' =>
                  finish_vote f messageId upvotesBefore downvotesBefore 1 0 tx' s
              end
        | _ => (s, fail500 "Failed to fetch message votes")
        end
    end.

(** [func downvoteMessageHandler(c *gin.Context)] *)
Definition downvoteMessageHandler (f : VoteFaults) (userId messageId : string)
    (s : Server) : Server * Response :=
  if begin_fails f then (s, fail500 "Failed to start transaction")
  else
    let tx := db s in
    match QueryRow (vote_query_fails f) (select_vote_type userId messageId tx) with
    | QueryError => (s, fail500 "Failed to fetch existing vote")
    | found =>
        let existingVote := match found with Row v => v | _ => "" end in
        match QueryRow (counts_query_fails f) (select_counts messageId tx) with
        | Row (upvotesBefore, downvotesBefore) =>
            if decide (existingVote = "downvote") then
              match Exec (vote_exec_fails f) (Some (delete_vote userId messageId tx)) with
              | None => (s, fail500 "Failed to remove downvote")
              | Some tx' =>
                  finish_vote f messageId upvotesBefore downvotesBefore 0 (-1) tx' s
              end
            else if decide (existingVote = "upvote") then
              match Exec (vote_exec_fails f)
                         (Some (update_vote_type "downvote" userId messageId tx)) with
              | None => (s, fail500 "Failed to update vote")
              | Some tx' =>
                  finish_vote f messageId upvotesBefore downvotesBefore (-1) 1 tx' s
              end
            else
              match Exec (vote_exec_fails f) (insert_vote userId messageId "downvote" tx) with
              | None => (s, fail500 "Failed to add downvote")
              | Some tx' =>
                  finish_vote f messageId upvotesBefore downvotesBefore 0 1 tx' s
              end
        | _ => (s, fail500 "Failed to fetch message votes")
        end
    end.

(** What [c.ShouldBindJSON(&msg)] makes of the request body. *)
Inductive BindResult : Type :=
| BindOk (msg : Message)
| BindError (e : string).

(** [func sendMessageHandler(c *gin.Context)] *)
Definition sendMessageHandler (insert_fails : bool) (request : BindResult)
    (s : Server) : Server * Response :=
  match request with
  | BindError e => (s, mkResponse Http.StatusBadRequest (JError e))
  | BindOk msg =>
      if insert_fails then (s, fail500 "Failed to send message")
      else
        let '(d, id) := insert_message (Sender msg) (Receiver msg) (Content msg) (db s) in
        let msg' := mkMessage (fmt_d id) (Sender msg) (Receiver msg) (Content msg)
                              (Upvotes msg) (Downvotes msg) in
        (handleMessages msg' (set_db d s),
         mkResponse Http.StatusCreated (JMessage msg'))
  end.

(** What can go wrong outside the program during a read of a
    conversation. *)
Record RowsFaults : Type := mkRowsFaults {
  rows_query_fails : bool;          (* db.Query(...) *)
  rows_scan_fails : bool;           (* rows.Scan(...) *)
  rows_err_fails : bool             (* rows.Err() *)
}.

Definition rows_ok : RowsFaults := mkRowsFaults false false false.

(** [func getMessagesHandler(c *gin.Context)]; the store's error text
    that goes into ["details"] is left out of the body.  [rows.Scan] is
    reached when there is a row; [messages] is the nil slice when there is
    none, the empty list here. *)
Definition getMessagesHandler (f : RowsFaults) (sender receiver : string)
    (s : Server) : Server * Response :=
  if rows_query_fails f then (s, fail500 "Failed to fetch messages")
  else
    let rows := select_conversation sender receiver (db s) in
    if rows_scan_fails f && bool_decide (rows ≠ []) then
      (s, fail500 "Failed to scan message")
    else if rows_err_fails f then
      (s, fail500 "Error occurred during rows iteration")
    else (s, mkResponse Http.StatusOK (JMessages rows)).

(** [func wsHandler(c *gin.Context)] up to its first [ReadJSON]: the
    upgrade and the registration. *)
Definition wsHandler (upgrade_fails : bool) (userID : string) (s : Server)
    : Server * Response :=
  if upgrade_fails then (s, mkResponse Http.StatusNotFound NotFoundPage)
  else
    let conn := length (conns s) in
    let client := mkClient userID conn in
    (mkServer (db s) (rdb s)
              (<[userID := client]> (clients s))
              (conns s ++ [mkWsConn userID false false false []]),
     mkResponse Http.StatusSwitchingProtocols Upgraded).

(** One turn of the read loop of the [wsHandler] call serving connection
    [conn]: [read] is what the peer sent, [None] when [ReadJSON] returns
    an error.  A closed or broken connection only reads errors.  On an
    error the handler deregisters its [userID] and returns, which runs the
    deferred [conn.Close()]. *)
Definition wsRead (conn : nat) (read : option Message) (s : Server) : Server :=
  match conns s !! conn with
  | Some w =>
      if ws_done w then s
      else
        match (if ws_closed w || ws_broken w then None else read) with
        | Some msg => handleMessages msg s
        | None =>
            mkServer (db s) (rdb s)
                     (delete (ws_user w) (clients s))
                     (<[conn := mkWsConn (ws_user w) true (ws_broken w) true (ws_sent w)]>
                        (conns s))
        end
  | None => s
  end.

(** The peer of connection [conn] goes away. *)
Definition wsBreak (conn : nat) (s : Server) : Server :=
  match conns s !! conn with
  | Some w =>
      mkServer (db s) (rdb s) (clients s)
               (<[conn := mkWsConn (ws_user w) (ws_closed w) true (ws_done w) (ws_sent w)]>
                  (conns s))
  | None => s
  end.

(** ** Runs of the server *)

Inductive Request : Type :=
| PostMessages (insert_fails : bool) (request : BindResult)
| GetMessages (f : RowsFaults) (sender receiver : string)
| PostUpvote (f : VoteFaults) (userId messageId : string)
| PostDownvote (f : VoteFaults) (userId messageId : string)
| GetWs (upgrade_fails : bool) (userID : string)
| WsRead (conn : nat) (read : option Message)
| WsBreak (conn : nat).

Definition serve (r : Request) (s : Server) : Server :=
  match r with
  | PostMessages fl b => fst (sendMessageHandler fl b s)
  | GetMessages fl a b => fst (getMessagesHandler fl a b s)
  | PostUpvote f u m => fst (upvoteMessageHandler f u m s)
  | PostDownvote f u m => fst (downvoteMessageHandler f u m s)
  | GetWs fl u => fst (wsHandler fl u s)
  | WsRead c r => wsRead c r s
  | WsBreak c => wsBreak c s
  end.

(** The server after [main] has created the empty tables. *)
Definition init : Server := mkServer (mkDB [] [] 1) ∅ ∅ [].

(** The state after the requests of [rs], served first to last. *)
Definition run (rs : list Request) : Server := foldl (λ s r, serve r s) init rs.

(** ** Vocabulary of the specification *)

(** The two vote routes, [POST /messages/:id/upvote] and
    [POST /messages/:id/downvote]. *)
Inductive VoteType : Type := upvote | downvote.

Definition castVote (f : VoteFaults) (t : VoteType) (user message : string)
    (s : Server) : Server * Response :=
  match t with
  | upvote => upvoteMessageHandler f user message s
  | downvote => downvoteMessageHandler f user message s
  end.

Inductive VoteState : Type := NONE | UPVOTED | DOWNVOTED.

#[global] Instance VoteState_eq_dec : EqDecision VoteState.
Proof. solve_decision. Defined.

(** The vote state of a (user, message) pair, read the way the handlers
    read [existingVote]. *)
Definition vote_state (d : DB) (user message : string) : VoteState :=
  match QueryRow false (select_vote_type user message d) with
  | Row v =>
      if decide (v = "upvote") then UPVOTED
      else if decide (v = "downvote") then DOWNVOTED
      else NONE
  | _ => NONE
  end.

(** The transition table of the specification's toggle machine: the next
    state and the change of (upvotes, downvotes). *)
Definition spec_toggle (st : VoteState) (t : VoteType) : VoteState * (Z * Z) :=
  match st, t with
  | NONE, upvote => (UPVOTED, (1, 0))
  | NONE, downvote => (DOWNVOTED, (0, 1))
  | UPVOTED, upvote => (NONE, (-1, 0))
  | DOWNVOTED, downvote => (NONE, (0, -1))
  | UPVOTED, downvote => (DOWNVOTED, (-1, 1))
  | DOWNVOTED, upvote => (UPVOTED, (1, -1))
  end.

(** The message a reader finds under an id, and its tally. *)
Definition message_at (d : DB) (message : string) : option Message :=
  head (select_message message d).

Definition tally (d : DB) (message : string) : option (Z * Z) :=
  head (select_counts message d).

(** Number of vote records of one type for a message. *)
Definition count_votes (ty message : string) (votes : list VoteRow) : Z :=
  Z.of_nat (length (filter (λ v, read_int message = Some (message_id v) ∧ vote_type v = ty)
                           votes)).

Definition vote_key (v : VoteRow) : string * Z := (user_id v, message_id v).

(** The store does not fail during a vote request (the cache and the
    re-read after the commit may). *)
Definition store_up (f : VoteFaults) : Prop :=
  begin_fails f = false ∧ vote_query_fails f = false ∧
  counts_query_fails f = false ∧ vote_exec_fails f = false ∧
  counts_exec_fails f = false ∧ commit_fails f = false.

Definition with_cache_faults (up down : bool) (f : VoteFaults) : VoteFaults :=
  mkVoteFaults (begin_fails f) (vote_query_fails f) (counts_query_fails f)
               (vote_exec_fails f) (counts_exec_fails f) up down
               (commit_fails f) (reread_fails f).

(** Consistency of the two tables. *)
Record store_ok (d : DB) : Prop := mkStoreOk {
  ok_types : ∀ v, v ∈ user_votes d →
             vote_type v = "upvote" ∨ vote_type v = "downvote";
  ok_unique : NoDup (vote_key <$> user_votes d);
  ok_refs : ∀ v, v ∈ user_votes d → ∃ r, r ∈ messages d ∧ row_id r = message_id v;
  ok_ids : ∀ r, r ∈ messages d → row_id r < next_id d;
  ok_tally : ∀ r, r ∈ messages d →
             row_upvotes r = count_votes "upvote" (fmt_d (row_id r)) (user_votes d) ∧
             row_downvotes r = count_votes "downvote" (fmt_d (row_id r)) (user_votes d)
}.

(** Consistency of the registry with the connections. *)
Definition hub_ok (s : Server) : Prop :=
  ∀ u cl, clients s !! u = Some cl →
    UserID cl = u ∧ ∃ w, conns s !! Conn cl = Some w ∧ ws_user w = u.

(** What connection [c] has been sent so far. *)
Definition sent_on (s : Server) (c : nat) : list Message :=
  default [] (ws_sent <$> conns s !! c).

(** A push on connection [c] would succeed. *)
Definition writable (s : Server) (c : nat) : bool :=
  match conns s !! c with
  | Some w => negb (ws_closed w || ws_broken w)
  | None => false
  end.

(** Connections keep their place and their user. *)
Definition same_owners (cs cs' : list WsConn) : Prop :=
  ∀ k w, cs !! k = Some w → ∃ w', cs' !! k = Some w' ∧ ws_user w' = ws_user w.

(** The registry operations of the specification, as the code performs
    them: [clients[userID] = client] and [delete(clients, userID)]. *)
Definition register (userID : string) (s : Server) : Server :=
  fst (wsHandler false userID s).

Definition deregister (userID : string) (cl : gmap string Client) : gmap string Client :=
  delete userID cl.

(** Bookkeeping for the counts: whether a vote record of type [T] on
    message [M] is counted among the records of type [ty] on [m]. *)
Definition hit (m M ty T : string) : Z :=
  if decide (read_int m = read_int M ∧ ty = T) then 1 else 0.

Definition is_ty (T ty : string) : Z := if decide (T = ty) then 1 else 0.

(** A message with its two counters moved by the given amounts. *)
Definition add_tally (du dd : Z) (m : Message) : Message :=
  mkMessage (ID m) (Sender m) (Receiver m) (Content m) (Upvotes m + du) (Downvotes m + dd).

(** ** Further vocabulary *)

(** What a vote state of one user adds to (upvotes, downvotes) of the
    message. *)
Definition contribution (st : VoteState) : Z * Z :=
  match st with
  | NONE => (0, 0)
  | UPVOTED => (1, 0)
  | DOWNVOTED => (0, 1)
  end.

(** Vote requests of one user on one message, served first to last. *)
Definition castVotes (ts : list (VoteFaults * VoteType)) (user message : string)
    (s : Server) : Server :=
  foldl (λ s ft, fst (castVote (fst ft) (snd ft) user message s)) s ts.

(** The transition table followed along the same requests. *)
Definition toggles (ts : list (VoteFaults * VoteType)) (st : VoteState) : VoteState :=
  foldl (λ st ft, fst (spec_toggle st (snd ft))) st ts.

(** The columns of a message row for which the program has no UPDATE. *)
Definition identity_of (r : MessageRow) : Z * string * string * string :=
  (row_id r, row_sender r, row_receiver r, row_content r).

(** The three statements a vote handler may run on [user_votes]. *)
Definition vote_write (userId messageId : string) (d tx : DB) : Prop :=
  tx = delete_vote userId messageId d ∨
  (∃ T', tx = update_vote_type T' userId messageId d) ∨
  (∃ T', insert_vote userId messageId T' d = Some tx).

(** Row [r1] has a smaller id than row [r2]. *)
Definition id_before (r1 r2 : MessageRow) : Prop := row_id r1 < row_id r2.

(** Ids grow in the order of the inserts and stay below the sequence. *)
Definition ids_ok (d : DB) : Prop :=
  StronglySorted id_before (messages d) ∧ ∀ r, r ∈ messages d → row_id r < next_id d.

(** Message [m1] has a smaller id than [m2]. *)
Definition older (m1 m2 : Message) : Prop :=
  ∃ k1 k2, ID m1 = fmt_d k1 ∧ ID m2 = fmt_d k2 ∧ k1 < k2.

(** What is registered is a connection that is open and still served. *)
Definition hub_live (s : Server) : Prop :=
  ∀ u cl, clients s !! u = Some cl →
    ∃ w, conns s !! Conn cl = Some w ∧ ws_closed w = false ∧ ws_done w = false.

(** Every message pushed on a connection names the user of the
    connection as its sender or its receiver. *)
Definition sent_ok (s : Server) : Prop :=
  ∀ c w msg, conns s !! c = Some w → msg ∈ ws_sent w →
    Sender msg = ws_user w ∨ Receiver msg = ws_user w.

Definition hub_inv (s : Server) : Prop := hub_ok s ∧ hub_live s ∧ sent_ok s.

(** How a connection may differ between two moments: same user, what was
    sent is still there first, flags only ever get set, and nothing is
    sent once it is closed. *)
Definition conn_grows (w w' : WsConn) : Prop :=
  ws_user w' = ws_user w ∧
  ws_sent w `prefix_of` ws_sent w' ∧
  (ws_closed w = true → ws_closed w' = true ∧ ws_sent w' = ws_sent w) ∧
  (ws_done w = true → ws_done w' = true) ∧
  (ws_broken w = true → ws_broken w' = true).

Definition conns_grow (cs cs' : list WsConn) : Prop :=
  ∀ c w, cs !! c = Some w → ∃ w', cs' !! c = Some w' ∧ conn_grows w w'.

(** Every cache entry is filed under an id text that the store reads as
    the id of a stored message, and has no field but the two counters. *)
Definition cache_ok (s : Server) : Prop :=
  ∀ k entry, rdb s !! k = Some entry →
    (∃ r m, r ∈ messages (db s) ∧ has_id m r ∧ k = cache_key m) ∧
    ∀ field v, entry !! field = Some v → field = "upvotes" ∨ field = "downvotes".

(** ** Accounts *)

Definition StatusUnauthorized : Z := 401.   (* http.StatusUnauthorized *)
Definition StatusConflict : Z := 409.       (* http.StatusConflict *)

(** A row of [users]; [password] holds the bcrypt hash. *)
Record UserRow : Type := mkUserRow { username : string; password : string }.

(** [golang.org/x/crypto/bcrypt] as the handlers use it.  Hashing draws a
    salt, given here as [entropy], and may fail; comparing answers
    whether the error is [nil]. *)
Record Bcrypt : Type := mkBcrypt {
  GenerateFromPassword : string → string → Z → option string;
  CompareHashAndPassword : string → string → bool
}.

Definition DefaultCost : Z := 10.           (* bcrypt.DefaultCost *)

(** What [c.ShouldBindJSON(&user)] makes of the request body. *)
Inductive Credentials : Type :=
| Creds (Username Password : string)
| CredsError (e : string).

Record SignupFaults : Type := mkSignupFaults {
  count_fails : bool;               (* SELECT COUNT( * ) ... *)
  insert_user_fails : bool          (* INSERT INTO users ... *)
}.

(** [func signupHandler(c *gin.Context)] *)
Definition signupHandler (B : Bcrypt) (f : SignupFaults) (entropy : string)
    (request : Credentials) (users : list UserRow) : list UserRow * Response :=
  match request with
  | CredsError e => (users, mkResponse Http.StatusBadRequest (JError e))
  | Creds Username Password =>
      if decide (Username = "" ∨ Password = "") then
        (users, mkResponse Http.StatusBadRequest (JError "Invalid username or password"))
      else if (String.length Password <? 8)%nat || (20 <? String.length Password)%nat then
        (users, mkResponse Http.StatusBadRequest
                  (JError "Password must be between 8 to 20 characters."))
      else if count_fails f then
        (users, fail500 "Error checking username availability")
      else
        let count := length (filter (λ r, username r = Username) users) in
        if (0 <? count)%nat then
          (users, mkResponse StatusConflict (JError "Username already taken"))
        else
          match GenerateFromPassword B entropy Password DefaultCost with
          | None => (users, fail500 "Failed to hash password")
          | Some hashedPassword =>
              if insert_user_fails f then (users, fail500 "Failed to insert user")
              else (users ++ [mkUserRow Username hashedPassword],
                    mkResponse Http.StatusOK (JText "User signed up successfully"))
          end
  end.

(** [func loginHandler(c *gin.Context)] *)
Definition loginHandler (B : Bcrypt) (query_fails : bool) (request : Credentials)
    (users : list UserRow) : Response :=
  match request with
  | CredsError _ => mkResponse Http.StatusBadRequest (JError "Invalid request payload")
  | Creds Username Password =>
      match QueryRow query_fails
              (password <$> filter (λ r, username r = Username) users) with
      | Row storedPassword =>
          if CompareHashAndPassword B storedPassword Password
          then mkResponse Http.StatusOK (JText "Login successful")
          else mkResponse StatusUnauthorized (JError "Invalid username or password")
      | _ => mkResponse StatusUnauthorized (JError "Invalid username or password")
      end
  end.

(** The body of the users listing. *)
Inductive UsersBody : Type :=
| JUsers (users : list string)      (* gin.H{"users": users} *)
| JUsersError (e : string).

Record UsersResponse : Type := mkUsersResponse { users_status : Z; users_body : UsersBody }.

(** [func usersHandler(c *gin.Context)] *)
Definition usersHandler (query_fails scan_fails rows_fail : bool) (currentUser : string)
    (users : list UserRow) : UsersResponse :=
  if query_fails then
    mkUsersResponse Http.StatusInternalServerError (JUsersError "Failed to fetch users")
  else
    let rows := username <$> filter (λ r, username r ≠ currentUser) users in
    if scan_fails && bool_decide (rows ≠ []) then
      mkUsersResponse Http.StatusInternalServerError (JUsersError "Failed to scan user")
    else if rows_fail then
      mkUsersResponse Http.StatusInternalServerError
        (JUsersError "Error occurred during rows iteration")
    else mkUsersResponse Http.StatusOK (JUsers rows).

Inductive AccountRequest : Type :=
| PostSignup (f : SignupFaults) (entropy : string) (request : Credentials)
| PostLogin (query_fails : bool) (request : Credentials)
| GetUsers (query_fails scan_fails rows_fail : bool) (currentUser : string).

Definition serve_account (B : Bcrypt) (r : AccountRequest) (users : list UserRow)
    : list UserRow :=
  match r with
  | PostSignup f entropy request => fst (signupHandler B f entropy request users)
  | PostLogin _ _ => users
  | GetUsers _ _ _ _ => users
  end.

(** The [users] table after the requests of [rs], from the empty table
    [main] creates. *)
Definition run_accounts (B : Bcrypt) (rs : list AccountRequest) : list UserRow :=
  foldl (λ users r, serve_account B r users) [] rs.



(** ** The chat view of the browser client (Chat.tsx) *)

(** [prevMessages.findIndex((msg) => msg.id === id)], with [None] for
    the -1 of JavaScript. *)
Definition findIndex (id : string) (prevMessages : list Message) : option nat :=
  fst <$> list_find (λ msg, ID msg = id) prevMessages.

(** The update of the [messages] state in [socket.onmessage], for the
    chat of [currentUser] with [username]: an event of another
    conversation is dropped; one with a known id replaces the message at
    the first place that id is found; any other is added at the end. *)
Definition onmessage (currentUser username : string) (updatedMessage : Message)
    (prevMessages : list Message) : list Message :=
  if decide ((Sender updatedMessage = currentUser ∧ Receiver updatedMessage = username) ∨
             (Sender updatedMessage = username ∧ Receiver updatedMessage = currentUser))
  then
    match findIndex (ID updatedMessage) prevMessages with
    | Some messageIndex =>
        imap (λ index msg, if decide (index = messageIndex) then updatedMessage else msg)
             prevMessages
    | None => prevMessages ++ [updatedMessage]
    end
  else prevMessages.

(** * Properties *)

(** ** Ids and their text *)

Lemma to_int_not_nil (z : Z) : Z.to_int z ≠ Decimal.Pos Decimal.Nil ∧
                               Z.to_int z ≠ Decimal.Neg Decimal.Nil.
Proof.
  destruct z as [|p|p]; simpl; split; try discriminate;
    intros [= H]; by apply (DecimalPos.Unsigned.to_uint_nonnil p).
Qed.

Lemma fmt_d_inj (a b : Z) : fmt_d a = fmt_d b → a = b.
Proof.
  unfold fmt_d. intros H.
  apply DecimalZ.to_int_inj.
  destruct (to_int_not_nil a) as [Ha1 Ha2], (to_int_not_nil b) as [Hb1 Hb2].
  pose proof (NilZero.isi _ Ha1 Ha2) as Ia.
  pose proof (NilZero.isi _ Hb1 Hb2) as Ib.
  rewrite H in Ia. congruence.
Qed.

(** The text a stored id is handed out as is read back as that id. *)
Lemma decimal_fmt_d (z : Z) : decimal (fmt_d z) = Some z.
Proof.
  unfold decimal, fmt_d. destruct (to_int_not_nil z) as [H1 H2].
  rewrite (NilZero.isi _ H1 H2). simpl. by rewrite DecimalZ.of_to.
Qed.

Lemma read_int_fmt_d (z : Z) : read_int (fmt_d z) = Some z.
Proof. unfold read_int. by rewrite decimal_fmt_d. Qed.

Lemma has_id_fmt_d (z : Z) (r : MessageRow) : has_id (fmt_d z) r ↔ row_id r = z.
Proof. unfold has_id. rewrite read_int_fmt_d. split; congruence. Qed.

Lemma has_id_same (M : string) (r r' : MessageRow) :
  has_id M r → (has_id M r' ↔ row_id r' = row_id r).
Proof. unfold has_id. intros ->. split; congruence. Qed.

(** ** Rows selected by a predicate *)

Section Selection.
Context {A : Type} (P : A → Prop) `{!∀ x, Decision (P x)}.

Lemma filter_one_split (l : list A) (v : A) :
  filter P l = [v] →
  ∃ l1 l2, l = l1 ++ v :: l2 ∧ filter P l1 = [] ∧ filter P l2 = [] ∧ P v.
Proof.
  induction l as [|a l IH]; [done|].
  rewrite filter_cons. destruct (decide (P a)) as [Pa|nPa].
  - intros [= -> Hl]. by exists [], l.
  - intros Hl. destruct (IH Hl) as (l1 & l2 & -> & H1 & H2 & Pv).
    exists (a :: l1), l2. rewrite filter_cons_False by done. done.
Qed.

Lemma filter_none_all (l : list A) : filter P l = [] ↔ ∀ x, x ∈ l → ¬ P x.
Proof.
  split.
  - intros Hn x Hx Px. by apply (filter_nil_not_elem_of P l x).
  - induction l as [|a l IH]; [done|]. intros Hn.
    rewrite filter_cons_False by (apply Hn; left).
    apply IH. intros x Hx. apply Hn. by right.
Qed.

Lemma filter_none_keep (l : list A) :
  filter P l = [] → filter (λ x, ¬ P x) l = l.
Proof.
  rewrite filter_none_all. induction l as [|a l IH]; [done|]. intros Hn.
  rewrite filter_cons_True by (apply Hn; left).
  f_equal. apply IH. intros x Hx. apply Hn. by right.
Qed.

Lemma filter_none_fmap (g : A → A) (l : list A) :
  filter P l = [] → (λ x, if decide (P x) then g x else x) <$> l = l.
Proof.
  rewrite filter_none_all. induction l as [|a l IH]; [done|]. intros Hn.
  rewrite fmap_cons. rewrite decide_False by (apply Hn; left).
  f_equal. apply IH. intros x Hx. apply Hn. by right.
Qed.
End Selection.

(** ** The vote table *)

Lemma count_votes_nil ty m : count_votes ty m [] = 0.
Proof. done. Qed.

Lemma count_votes_cons ty m v l :
  count_votes ty m (v :: l) =
  (if decide (read_int m = Some (message_id v) ∧ vote_type v = ty) then 1 else 0)
  + count_votes ty m l.
Proof.
  unfold count_votes. rewrite filter_cons.
  destruct (decide _); simpl length; lia.
Qed.

Lemma count_votes_app ty m l1 l2 :
  count_votes ty m (l1 ++ l2) = count_votes ty m l1 + count_votes ty m l2.
Proof. unfold count_votes. rewrite filter_app, length_app. lia. Qed.

Lemma count_votes_nonneg ty m l : 0 ≤ count_votes ty m l.
Proof. unfold count_votes. lia. Qed.

(** Under the unique key a pair selects no row or exactly one. *)
Lemma unique_selects_one (U M : string) (l : list VoteRow) :
  NoDup (vote_key <$> l) →
  filter (vote_of U M) l = [] ∨ ∃ v, filter (vote_of U M) l = [v].
Proof.
  induction l as [|a l IH]; [by left|].
  rewrite fmap_cons, NoDup_cons. intros [Ha Hl].
  rewrite filter_cons. destruct (decide (vote_of U M a)) as [Pa|nPa]; [|by apply IH].
  right. exists a. f_equal. apply filter_none_all. intros x Hx Px.
  apply Ha. apply list_elem_of_fmap. exists x. split; [|done].
  unfold vote_key. destruct Pa as [Ua Ma], Px as [Ux Mx]. f_equal; congruence.
Qed.

Lemma vote_of_key U M id v :
  read_int M = Some id → vote_of U M v ↔ vote_key v = (U, id).
Proof.
  unfold vote_of, vote_key. intros ->.
  split; [intros [-> [= ->]]; done|by intros [= -> ->]].
Qed.

Lemma select_vote_type_cases (U M : string) (d : DB) :
  NoDup (vote_key <$> user_votes d) →
  (select_vote_type U M d = [] ∧ filter (vote_of U M) (user_votes d) = []) ∨
  ∃ v, select_vote_type U M d = [vote_type v] ∧
       filter (vote_of U M) (user_votes d) = [v].
Proof.
  intros ND. unfold select_vote_type.
  destruct (unique_selects_one U M _ ND) as [->|[v ->]]; [by left|right; by exists v].
Qed.

(** How each statement on [user_votes] moves the per-message counts. *)
Ltac hit_cases :=
  unfold hit; repeat case_decide; destruct_and?; subst;
  first [lia | exfalso; auto | exfalso; intuition congruence].

Lemma count_delete (U M : string) (l : list VoteRow) (v : VoteRow) ty m :
  filter (vote_of U M) l = [v] →
  count_votes ty m (filter (λ x, ¬ vote_of U M x) l) =
  count_votes ty m l - hit m M ty (vote_type v).
Proof.
  intros H. destruct (filter_one_split _ _ _ H) as (l1 & l2 & -> & H1 & H2 & Pv).
  rewrite filter_app, filter_cons_False by tauto.
  rewrite !(filter_none_keep (vote_of U M)) by done.
  rewrite !count_votes_app, count_votes_cons.
  destruct Pv as [_ Pv]. rewrite <- Pv. hit_cases.
Qed.

Lemma count_switch (T' U M : string) (l : list VoteRow) (v : VoteRow) ty m :
  filter (vote_of U M) l = [v] →
  count_votes ty m ((λ x, if decide (vote_of U M x)
                          then mkVoteRow (user_id x) (message_id x) T'
                          else x) <$> l) =
  count_votes ty m l - hit m M ty (vote_type v) + hit m M ty T'.
Proof.
  intros H. destruct (filter_one_split _ _ _ H) as (l1 & l2 & -> & H1 & H2 & Pv).
  rewrite fmap_app, fmap_cons.
  rewrite !(filter_none_fmap (vote_of U M)) by done.
  rewrite decide_True by done.
  rewrite !count_votes_app, !count_votes_cons. simpl.
  destruct Pv as [_ Pv]. rewrite <- Pv. hit_cases.
Qed.

Lemma count_insert (T' U M : string) (id : Z) (l : list VoteRow) ty m :
  read_int M = Some id →
  count_votes ty m (l ++ [mkVoteRow U id T']) = count_votes ty m l + hit m M ty T'.
Proof.
  intros Hid.
  rewrite count_votes_app, count_votes_cons, count_votes_nil. simpl.
  rewrite <- Hid. hit_cases.
Qed.

(** ** Consistency of the store is kept by every committed transaction *)

Lemma update_counts_ok (d : DB) (votes' : list VoteRow) (M : string) (du dd : Z) :
  store_ok d →
  (∀ v, v ∈ votes' → vote_type v = "upvote" ∨ vote_type v = "downvote") →
  NoDup (vote_key <$> votes') →
  (∀ v, v ∈ votes' → ∃ r, r ∈ messages d ∧ row_id r = message_id v) →
  (∀ m, count_votes "upvote" m votes' =
        count_votes "upvote" m (user_votes d)
        + (if decide (read_int m = read_int M) then du else 0)) →
  (∀ m, count_votes "downvote" m votes' =
        count_votes "downvote" m (user_votes d)
        + (if decide (read_int m = read_int M) then dd else 0)) →
  store_ok (update_counts du dd M (mkDB (messages d) votes' (next_id d))).
Proof.
  intros Hok Hty Hnd Href Hup Hdown.
  constructor; unfold update_counts; simpl.
  - done.
  - done.
  - intros v Hv. destruct (Href v Hv) as (r & Hr & Hid).
    eexists. split; [by apply list_elem_of_fmap_2|].
    by case_decide.
  - intros r' (r & -> & Hr)%list_elem_of_fmap.
    pose proof (ok_ids d Hok r Hr). by case_decide.
  - intros r' (r & -> & Hr)%list_elem_of_fmap.
    destruct (ok_tally d Hok r Hr) as [Hu Hd].
    unfold has_id.
    destruct (decide (read_int M = Some (row_id r))) as [e|n]; simpl.
    + rewrite Hup, Hdown, !decide_True by (by rewrite read_int_fmt_d). lia.
    + rewrite Hup, Hdown, !decide_False by (by rewrite read_int_fmt_d). lia.
Qed.

Lemma hit_is_ty m M ty T :
  hit m M ty T = if decide (read_int m = read_int M) then is_ty T ty else 0.
Proof. unfold hit, is_ty. repeat case_decide; destruct_and?; subst; first [done | exfalso; auto]. Qed.

Lemma message_found (M : string) (d : DB) (c : Z * Z) (rest : list (Z * Z)) :
  select_counts M d = c :: rest → ∃ r, r ∈ messages d ∧ has_id M r.
Proof.
  unfold select_counts. intros H.
  destruct (filter (has_id M) (messages d)) as [|r l] eqn:E; [done|].
  exists r. apply and_comm, (list_elem_of_filter (has_id M)). rewrite E. left.
Qed.

Lemma delete_tx_ok (d : DB) (U M : string) (v : VoteRow) (du dd : Z) :
  store_ok d →
  filter (vote_of U M) (user_votes d) = [v] →
  du = - is_ty (vote_type v) "upvote" →
  dd = - is_ty (vote_type v) "downvote" →
  store_ok (update_counts du dd M (delete_vote U M d)).
Proof.
  intros Hok Hv -> ->. unfold delete_vote.
  apply update_counts_ok; [done|..].
  - intros x [_ Hx]%list_elem_of_filter. by apply (ok_types d Hok).
  - eapply sublist_NoDup; [apply (ok_unique d Hok)|].
    apply fmap_sublist, sublist_filter.
  - intros x [_ Hx]%list_elem_of_filter. by apply (ok_refs d Hok).
  - intros m. rewrite (count_delete U M _ v) by done. rewrite hit_is_ty.
    case_decide; lia.
  - intros m. rewrite (count_delete U M _ v) by done. rewrite hit_is_ty.
    case_decide; lia.
Qed.

Lemma switch_tx_ok (d : DB) (T' U M : string) (v : VoteRow) (du dd : Z) :
  store_ok d →
  filter (vote_of U M) (user_votes d) = [v] →
  T' = "upvote" ∨ T' = "downvote" →
  du = is_ty T' "upvote" - is_ty (vote_type v) "upvote" →
  dd = is_ty T' "downvote" - is_ty (vote_type v) "downvote" →
  store_ok (update_counts du dd M (update_vote_type T' U M d)).
Proof.
  intros Hok Hv HT' -> ->. unfold update_vote_type.
  apply update_counts_ok; [done|..].
  - intros x' (x & -> & Hx)%list_elem_of_fmap.
    case_decide; [done|]. by apply (ok_types d Hok).
  - rewrite <- list_fmap_compose.
    erewrite list_fmap_ext; [apply (ok_unique d Hok)|].
    intros i x _. simpl. by case_decide.
  - intros x' (x & -> & Hx)%list_elem_of_fmap.
    destruct (ok_refs d Hok x Hx) as (r & Hr & Hid).
    exists r. split; [done|]. by case_decide.
  - intros m. rewrite (count_switch T' U M _ v) by done. rewrite !hit_is_ty.
    case_decide; lia.
  - intros m. rewrite (count_switch T' U M _ v) by done. rewrite !hit_is_ty.
    case_decide; lia.
Qed.

Lemma insert_tx_ok (d tx : DB) (T' U M : string) (c : Z * Z) (rest : list (Z * Z))
    (du dd : Z) :
  store_ok d →
  select_counts M d = c :: rest →
  insert_vote U M T' d = Some tx →
  T' = "upvote" ∨ T' = "downvote" →
  du = is_ty T' "upvote" →
  dd = is_ty T' "downvote" →
  store_ok (update_counts du dd M tx).
Proof.
  intros Hok Hm Hins HT' -> ->. unfold insert_vote in Hins.
  destruct (read_int M) as [id|] eqn:Eid; [|done].
  destruct (filter (vote_of U M) (user_votes d)) eqn:E; [|done].
  injection Hins as <-.
  apply update_counts_ok; [done|..].
  - intros x [Hx| ->%list_elem_of_singleton]%elem_of_app; [|done].
    by apply (ok_types d Hok).
  - rewrite fmap_app. apply NoDup_app. split; [apply (ok_unique d Hok)|].
    split; [|apply NoDup_singleton].
    intros k (x & -> & Hx)%list_elem_of_fmap Hk%list_elem_of_singleton.
    apply (filter_nil_not_elem_of (vote_of U M) _ x E); [|done].
    by apply (vote_of_key U M id).
  - intros x [Hx| ->%list_elem_of_singleton]%elem_of_app.
    + by apply (ok_refs d Hok).
    + simpl. destruct (message_found M d c rest Hm) as (r & Hr & Hid).
      exists r. split; [done|]. unfold has_id in Hid. congruence.
  - intros m. rewrite (count_insert _ _ M) by done. by rewrite hit_is_ty, Eid.
  - intros m. rewrite (count_insert _ _ M) by done. by rewrite hit_is_ty, Eid.
Qed.

(** ** The dispatcher leaves the store and the cache alone *)

Lemma sendMessageToUser_db u msg s : db (sendMessageToUser u msg s) = db s.
Proof. unfold sendMessageToUser. by repeat case_match. Qed.

Lemma sendMessageToUser_rdb u msg s : rdb (sendMessageToUser u msg s) = rdb s.
Proof. unfold sendMessageToUser. by repeat case_match. Qed.

Lemma handleMessages_db msg s : db (handleMessages msg s) = db s.
Proof. unfold handleMessages. by rewrite !sendMessageToUser_db. Qed.

Lemma handleMessages_rdb msg s : rdb (handleMessages msg s) = rdb s.
Proof. unfold handleMessages. by rewrite !sendMessageToUser_rdb. Qed.

(** ** What a vote request leaves in the store *)

Lemma finish_vote_db f M ub db_ du dd tx s :
  db (fst (finish_vote f M ub db_ du dd tx s)) =
  if counts_exec_fails f || commit_fails f then db s else update_counts du dd M tx.
Proof.
  unfold finish_vote, Exec.
  destruct (counts_exec_fails f); [done|].
  destruct (commit_fails f); [done|]. simpl.
  case_match; by rewrite ?handleMessages_db.
Qed.

Lemma finish_vote_store_ok f M ub db_ du dd tx s :
  store_ok (db s) → store_ok (update_counts du dd M tx) →
  store_ok (db (fst (finish_vote f M ub db_ du dd tx s))).
Proof. intros. rewrite finish_vote_db. by case_match. Qed.

Lemma upvote_store_ok f U M s :
  store_ok (db s) → store_ok (db (fst (upvoteMessageHandler f U M s))).
Proof.
  intros Hok. unfold upvoteMessageHandler.
  destruct (begin_fails f); [done|].
  destruct (select_vote_type_cases U M (db s) (ok_unique _ Hok))
    as [[E1 E2]|(v & E1 & E2)]; rewrite E1; unfold QueryRow at 1;
    (destruct (vote_query_fails f); [done|]);
    unfold QueryRow;
    (destruct (counts_query_fails f); [done|]);
    (destruct (select_counts M (db s)) as [|[ub db_] rest] eqn:Ec; [done|]).
  - rewrite !decide_False by done. unfold Exec.
    destruct (vote_exec_fails f); [done|].
    destruct (insert_vote _ _ _ _) as [tx|] eqn:Ei; [|done].
    apply finish_vote_store_ok; [done|].
    eapply insert_tx_ok; eauto.
  - assert (v ∈ user_votes (db s)) as Hv.
    { apply (list_elem_of_filter (vote_of U M)). rewrite E2. left. }
    unfold Exec.
    destruct (ok_types _ Hok v Hv) as [Ht|Ht]; rewrite Ht; simpl;
      (destruct (vote_exec_fails f); [done|]);
      (apply finish_vote_store_ok; [done|]).
    + eapply delete_tx_ok; eauto; by rewrite Ht.
    + eapply switch_tx_ok; eauto; by rewrite Ht.
Qed.

Lemma downvote_store_ok f U M s :
  store_ok (db s) → store_ok (db (fst (downvoteMessageHandler f U M s))).
Proof.
  intros Hok. unfold downvoteMessageHandler.
  destruct (begin_fails f); [done|].
  destruct (select_vote_type_cases U M (db s) (ok_unique _ Hok))
    as [[E1 E2]|(v & E1 & E2)]; rewrite E1; unfold QueryRow at 1;
    (destruct (vote_query_fails f); [done|]);
    unfold QueryRow;
    (destruct (counts_query_fails f); [done|]);
    (destruct (select_counts M (db s)) as [|[ub db_] rest] eqn:Ec; [done|]).
  - rewrite !decide_False by done. unfold Exec.
    destruct (vote_exec_fails f); [done|].
    destruct (insert_vote _ _ _ _) as [tx|] eqn:Ei; [|done].
    apply finish_vote_store_ok; [done|].
    eapply insert_tx_ok; eauto.
  - assert (v ∈ user_votes (db s)) as Hv.
    { apply (list_elem_of_filter (vote_of U M)). rewrite E2. left. }
    unfold Exec.
    destruct (ok_types _ Hok v Hv) as [Ht|Ht]; rewrite Ht; simpl;
      (destruct (vote_exec_fails f); [done|]);
      (apply finish_vote_store_ok; [done|]).
    + eapply switch_tx_ok; eauto; by rewrite Ht.
    + eapply delete_tx_ok; eauto; by rewrite Ht.
Qed.

Lemma insert_message_ok (a b c : string) (d : DB) :
  store_ok d → store_ok (fst (insert_message a b c d)).
Proof.
  intros Hok. constructor; simpl.
  - apply (ok_types d Hok).
  - apply (ok_unique d Hok).
  - intros v Hv. destruct (ok_refs d Hok v Hv) as (r & Hr & Hid).
    exists r. split; [|done]. apply elem_of_app. by left.
  - intros r [Hr| ->%list_elem_of_singleton]%elem_of_app; simpl; [|lia].
    pose proof (ok_ids d Hok r Hr). lia.
  - intros r [Hr| ->%list_elem_of_singleton]%elem_of_app; simpl.
    + by apply (ok_tally d Hok).
    + unfold count_votes.
      assert (∀ ty, filter (λ v, read_int (fmt_d (next_id d)) = Some (message_id v)
                                 ∧ vote_type v = ty)
                           (user_votes d) = []) as Hn.
      { intros ty. apply filter_none_all. intros v Hv [Hm _].
        rewrite read_int_fmt_d in Hm.
        destruct (ok_refs d Hok v Hv) as (r & Hr & Hid).
        pose proof (ok_ids d Hok r Hr). simplify_eq. lia. }
      by rewrite !Hn.
Qed.

Lemma getMessagesHandler_server f a b s : fst (getMessagesHandler f a b s) = s.
Proof. unfold getMessagesHandler. by repeat case_match. Qed.

Lemma serve_store_ok (r : Request) (s : Server) :
  store_ok (db s) → store_ok (db (serve r s)).
Proof.
  intros Hok. destruct r; simpl.
  - unfold sendMessageHandler. destruct request; [|done].
    destruct insert_fails; [done|]. simpl.
    rewrite handleMessages_db. simpl. by apply insert_message_ok.
  - by rewrite getMessagesHandler_server.
  - by apply upvote_store_ok.
  - by apply downvote_store_ok.
  - unfold wsHandler. by destruct upgrade_fails.
  - unfold wsRead. repeat case_match; by rewrite ?handleMessages_db.
  - unfold wsBreak. by case_match.
Qed.

Lemma init_store_ok : store_ok (db init).
Proof.
  constructor; simpl; try (intros ? H; by apply elem_of_nil in H).
  apply NoDup_nil_2.
Qed.

Lemma run_snoc (rs : list Request) (r : Request) : run (rs ++ [r]) = serve r (run rs).
Proof. unfold run. by rewrite foldl_app. Qed.

Lemma run_store_ok (rs : list Request) : store_ok (db (run rs)).
Proof.
  induction rs as [|r rs IH] using rev_ind; [apply init_store_ok|].
  rewrite run_snoc. by apply serve_store_ok.
Qed.

(** ** Tallies and vote records *)

Lemma NoDup_fmap_same {A B : Type} (g : A → B) (l : list A) (x y : A) :
  NoDup (g <$> l) → x ∈ l → y ∈ l → g x = g y → x = y.
Proof.
  induction l as [|a l IH]; [by intros _ ?%elem_of_nil|].
  rewrite fmap_cons, NoDup_cons. intros [Ha Hl] Hx Hy Hg.
  apply elem_of_cons in Hx as [->|Hx]; apply elem_of_cons in Hy as [->|Hy].
  - done.
  - exfalso. apply Ha. rewrite Hg. by apply list_elem_of_fmap_2.
  - exfalso. apply Ha. rewrite <- Hg. by apply list_elem_of_fmap_2.
  - by apply IH.
Qed.

Lemma votes_on_message_split (M : string) (l : list VoteRow) :
  (∀ v, v ∈ l → vote_type v = "upvote" ∨ vote_type v = "downvote") →
  Z.of_nat (length (filter (λ v, read_int M = Some (message_id v)) l)) =
  count_votes "upvote" M l + count_votes "downvote" M l.
Proof.
  induction l as [|a l IH]; [done|]. intros Hty.
  rewrite !count_votes_cons, filter_cons.
  assert (Hl : ∀ v, v ∈ l → vote_type v = "upvote" ∨ vote_type v = "downvote").
  { intros v Hv. apply Hty. by right. }
  specialize (IH Hl).
  destruct (Hty a) as [Ht|Ht]; [by left|..]; rewrite Ht;
    destruct (decide (read_int M = Some (message_id a))) as [e|n]; simpl length;
    repeat case_decide; destruct_and?; try lia; try done; exfalso; auto.
Qed.

Lemma vote_state_not_none (d : DB) (U M : string) :
  store_ok d →
  vote_state d U M ≠ NONE ↔ ∃ v, v ∈ user_votes d ∧ vote_of U M v.
Proof.
  intros Hok. unfold vote_state.
  destruct (select_vote_type_cases U M d (ok_unique _ Hok))
    as [[E1 E2]|(v & E1 & E2)]; rewrite E1; simpl.
  - split; [done|]. intros (v & Hv & Pv).
    by destruct (filter_nil_not_elem_of (vote_of U M) _ v E2 Pv).
  - assert (v ∈ user_votes d ∧ vote_of U M v) as [Hv Pv].
    { apply and_comm, (list_elem_of_filter (vote_of U M)). rewrite E2. left. }
    split; [by exists v|]. intros _.
    destruct (ok_types _ Hok v Hv) as [Ht|Ht]; rewrite Ht; done.
Qed.

Lemma voters_of_message (d : DB) (M : string) :
  store_ok d →
  ∃ V : gset string,
    (∀ U, U ∈ V ↔ vote_state d U M ≠ NONE) ∧
    Z.of_nat (size V) =
    count_votes "upvote" M (user_votes d) + count_votes "downvote" M (user_votes d).
Proof.
  intros Hok.
  exists (list_to_set (user_id <$> filter (λ v, read_int M = Some (message_id v))
                                          (user_votes d))).
  split.
  - intros U. rewrite elem_of_list_to_set, list_elem_of_fmap, vote_state_not_none by done.
    split.
    + intros (v & -> & [Hm Hv]%list_elem_of_filter). by exists v.
    + intros (v & Hv & [Hu Hm]). exists v. split; [done|].
      by apply list_elem_of_filter.
  - rewrite size_list_to_set.
    + rewrite length_fmap. apply votes_on_message_split, (ok_types _ Hok).
    + apply NoDup_fmap_2_strong.
      * intros x y [Hxm Hx]%list_elem_of_filter [Hym Hy]%list_elem_of_filter Hu.
        apply (NoDup_fmap_same vote_key (user_votes d)); [apply (ok_unique _ Hok)|done..|].
        unfold vote_key. congruence.
      * apply NoDup_filter. eapply NoDup_fmap_1, (ok_unique _ Hok).
Qed.

(** C2: after any sequence of requests the two counters of every message
    equal the numbers of its vote records of each type, a (user, message)
    pair has at most one vote record, the counters add up to the number
    of users whose vote state on the message is not NONE, and both are
    non-negative. *)
Theorem tally_counts_vote_records (rs : list Request) (r : MessageRow) :
  let d := db (run rs) in
  let M := fmt_d (row_id r) in
  r ∈ messages d →
  row_upvotes r = count_votes "upvote" M (user_votes d) ∧
  row_downvotes r = count_votes "downvote" M (user_votes d) ∧
  (∀ U, (length (filter (vote_of U M) (user_votes d)) ≤ 1)%nat) ∧
  (∃ V : gset string,
     (∀ U, U ∈ V ↔ vote_state d U M ≠ NONE) ∧
     row_upvotes r + row_downvotes r = Z.of_nat (size V)) ∧
  0 ≤ row_upvotes r ∧ 0 ≤ row_downvotes r.
Proof.
  intros d M Hr. pose proof (run_store_ok rs) as Hok. fold d in Hok.
  destruct (ok_tally d Hok r Hr) as [Hu Hd]. fold M in Hu, Hd.
  split; [done|]. split; [done|]. split; [|split].
  - intros U. destruct (unique_selects_one U M _ (ok_unique d Hok)) as [->|[v ->]];
      simpl; lia.
  - destruct (voters_of_message d M Hok) as (V & HV & Hsize).
    exists V. split; [done|]. lia.
  - rewrite Hu, Hd. split; apply count_votes_nonneg.
Qed.

(** ** The toggle *)

Lemma select_message_update_counts du dd M d :
  select_message M (update_counts du dd M d) = add_tally du dd <$> select_message M d.
Proof.
  unfold select_message, update_counts. simpl.
  induction (messages d) as [|r l IH]; [done|].
  rewrite fmap_cons, !filter_cons.
  destruct (decide (has_id M r)) as [e|n].
  - rewrite decide_True by done. rewrite !fmap_cons, IH. done.
  - rewrite decide_False by done. done.
Qed.

Lemma select_counts_message M d :
  select_counts M d = (λ m, (Upvotes m, Downvotes m)) <$> select_message M d.
Proof. unfold select_counts, select_message. by rewrite <- list_fmap_compose. Qed.

Lemma select_votes_update_counts du dd M U M' d :
  select_vote_type U M' (update_counts du dd M d) = select_vote_type U M' d.
Proof. done. Qed.

Lemma select_message_delete U M M' d :
  select_message M' (delete_vote U M d) = select_message M' d.
Proof. done. Qed.

Lemma select_message_switch T' U M M' d :
  select_message M' (update_vote_type T' U M d) = select_message M' d.
Proof. done. Qed.

Lemma select_after_delete U M d : select_vote_type U M (delete_vote U M d) = [].
Proof.
  unfold select_vote_type, delete_vote. simpl.
  replace (filter (vote_of U M) _) with (@nil VoteRow); [done|].
  symmetry. apply filter_none_all.
  intros v [Hn _]%list_elem_of_filter. done.
Qed.

Lemma select_after_switch T' U M d v :
  filter (vote_of U M) (user_votes d) = [v] →
  select_vote_type U M (update_vote_type T' U M d) = [T'].
Proof.
  intros H. destruct (filter_one_split _ _ _ H) as (l1 & l2 & E & H1 & H2 & Pv).
  unfold select_vote_type, update_vote_type. simpl. rewrite E.
  rewrite fmap_app, fmap_cons.
  rewrite !(filter_none_fmap (vote_of U M)) by done.
  rewrite decide_True by done.
  rewrite filter_app, H1, filter_cons_True, H2; [done|].
  destruct Pv. by split.
Qed.

Lemma select_after_insert T' U M d tx :
  insert_vote U M T' d = Some tx → select_vote_type U M tx = [T'].
Proof.
  unfold insert_vote, select_vote_type.
  destruct (read_int M) as [id|] eqn:Eid; [|done].
  destruct (filter (vote_of U M) (user_votes d)) eqn:E; [|done].
  intros [= <-]. simpl. rewrite filter_app, E. simpl.
  rewrite filter_cons_True by done. done.
Qed.

(** A text that selects a message is one the store reads an id from. *)
Lemma select_message_read M d m0 ms :
  select_message M d = m0 :: ms → ∃ id, read_int M = Some id.
Proof.
  unfold select_message. intros H.
  destruct (filter (has_id M) (messages d)) as [|r l] eqn:E; [done|].
  assert (has_id M r) as Hr.
  { apply (list_elem_of_filter (has_id M) (messages d)). rewrite E. left. }
  by exists (row_id r).
Qed.

Lemma finish_vote_commits f M ub db_ du dd tx s :
  counts_exec_fails f = false → commit_fails f = false →
  snd (finish_vote f M ub db_ du dd tx s) = vote_ok ∧
  db (fst (finish_vote f M ub db_ du dd tx s)) = update_counts du dd M tx.
Proof.
  intros H1 H2. split.
  - unfold finish_vote, Exec. by rewrite H1, H2.
  - by rewrite finish_vote_db, H1, H2.
Qed.

(** Walk a vote handler up to [finish_vote] when the store is up, then
    read the committed transaction. *)
Ltac enter_vote :=
  unfold castVote, upvoteMessageHandler, downvoteMessageHandler;
  match goal with
  | Fb : begin_fails _ = false, Fv : vote_query_fails _ = false,
    Fc : counts_query_fails _ = false, Fe : vote_exec_fails _ = false,
    E1 : select_vote_type _ _ _ = _, Ec : select_counts _ _ = _ |- _ =>
      rewrite Fb, E1, Ec; unfold QueryRow, Exec; rewrite Fv, Fc, Fe; simpl
  end.

Ltac leave_vote :=
  match goal with
  | Fu : counts_exec_fails _ = false, Fm : commit_fails _ = false
    |- context [finish_vote ?f ?M ?a ?b ?du ?dd ?tx ?s] =>
      destruct (finish_vote_commits f M a b du dd tx s Fu Fm) as [-> ->]
  end;
  unfold vote_state, message_at;
  rewrite ?select_votes_update_counts, ?select_message_update_counts,
    ?select_message_delete, ?select_message_switch.

Lemma castVote_step (f : VoteFaults) (t : VoteType) (U M : string)
    (s : Server) (msg : Message) :
  store_up f →
  store_ok (db s) →
  message_at (db s) M = Some msg →
  let st := vote_state (db s) U M in
  let s' := fst (castVote f t U M s) in
  snd (castVote f t U M s) = vote_ok ∧
  vote_state (db s') U M = fst (spec_toggle st t) ∧
  message_at (db s') M =
    Some (mkMessage (ID msg) (Sender msg) (Receiver msg) (Content msg)
                    (Upvotes msg + fst (snd (spec_toggle st t)))
                    (Downvotes msg + snd (snd (spec_toggle st t)))).
Proof.
  intros (Fb & Fv & Fc & Fe & Fu & Fm) Hok Hmsg st s'. subst st s'.
  unfold message_at in Hmsg.
  destruct (select_message M (db s)) as [|m0 ms] eqn:Em; [done|].
  injection Hmsg as ->.
  assert (Ec : select_counts M (db s) =
               (Upvotes msg, Downvotes msg) :: ((λ m, (Upvotes m, Downvotes m)) <$> ms)).
  { by rewrite select_counts_message, Em. }
  destruct (select_vote_type_cases U M (db s) (ok_unique _ Hok))
    as [[E1 E2]|(v & E1 & E2)].
  - (* NONE *)
    assert (Hst : vote_state (db s) U M = NONE) by (unfold vote_state; by rewrite E1).
    rewrite Hst.
    destruct (select_message_read _ _ _ _ Em) as [id Eid].
    destruct (insert_vote U M (match t with upvote => "upvote" | downvote => "downvote" end)
                (db s)) as [tx|] eqn:Ei;
      [|unfold insert_vote in Ei; by rewrite Eid, E2 in Ei].
    pose proof (select_after_insert _ _ _ _ _ Ei) as Ev.
    assert (Hm : select_message M tx = select_message M (db s)).
    { unfold insert_vote in Ei. rewrite Eid, E2 in Ei. by injection Ei as <-. }
    destruct t; enter_vote; rewrite Ei; leave_vote; rewrite Ev, Hm, Em; done.
  - assert (v ∈ user_votes (db s)) as Hv.
    { apply (list_elem_of_filter (vote_of U M)). rewrite E2. left. }
    pose proof (select_after_delete U M (db s)) as Edel.
    pose proof (λ T', select_after_switch T' U M (db s) v E2) as Esw.
    destruct (ok_types _ Hok v Hv) as [Ht|Ht]; rewrite Ht in E1.
    + (* UPVOTED *)
      assert (Hst : vote_state (db s) U M = UPVOTED) by (unfold vote_state; by rewrite E1).
      rewrite Hst.
      destruct t; enter_vote; leave_vote; rewrite ?Edel, ?Esw; by rewrite Em.
    + (* DOWNVOTED *)
      assert (Hst : vote_state (db s) U M = DOWNVOTED) by (unfold vote_state; by rewrite E1).
      rewrite Hst.
      destruct t; enter_vote; leave_vote; rewrite ?Edel, ?Esw; by rewrite Em.
Qed.

(** C1: a vote request that the store serves follows the toggle machine
    of the specification.  For every user, message and vote type the
    request succeeds, the vote state of the pair moves as the transition
    table says (NONE to the requested vote, the same vote again back to
    NONE, the other vote across), the two counters of the message move by
    the table's deltas, and the other fields of the message stay as they
    were. *)
Theorem castVote_follows_toggle (f : VoteFaults) (t : VoteType) (U M : string)
    (s : Server) (msg : Message) :
  store_up f →
  store_ok (db s) →
  message_at (db s) M = Some msg →
  let st := vote_state (db s) U M in
  let s' := fst (castVote f t U M s) in
  snd (castVote f t U M s) = vote_ok ∧
  vote_state (db s') U M = fst (spec_toggle st t) ∧
  message_at (db s') M =
    Some (mkMessage (ID msg) (Sender msg) (Receiver msg) (Content msg)
                    (Upvotes msg + fst (snd (spec_toggle st t)))
                    (Downvotes msg + snd (snd (spec_toggle st t)))).
Proof. apply castVote_step. Qed.

Lemma no_faults_store_up : store_up no_faults.
Proof. by repeat split. Qed.

(** ** Voting twice *)

Lemma castVote_store_ok f t U M s :
  store_ok (db s) → store_ok (db (fst (castVote f t U M s))).
Proof. destruct t; [apply upvote_store_ok|apply downvote_store_ok]. Qed.

(** C3, as the code has it: two upvotes in a row by a user whose vote
    state on the message is NONE or UPVOTED leave the counters of the
    message and the vote state of the user as they were before the first
    call (from NONE the call in between shows upvotes + 1); from
    DOWNVOTED they end in NONE with downvotes one lower and upvotes as
    before.  On a message with upvotes 2 and downvotes 1 and no vote from
    the user the two calls give (3, 1) and then (2, 1). *)
Theorem upvote_twice (f1 f2 : VoteFaults) (U M : string) (s : Server) (msg : Message) :
  store_up f1 → store_up f2 →
  store_ok (db s) →
  message_at (db s) M = Some msg →
  let s1 := fst (castVote f1 upvote U M s) in
  let s2 := fst (castVote f2 upvote U M s1) in
  match vote_state (db s) U M with
  | NONE =>
      message_at (db s1) M = Some (add_tally 1 0 msg) ∧
      message_at (db s2) M = Some msg ∧ vote_state (db s2) U M = NONE
  | UPVOTED =>
      message_at (db s1) M = Some (add_tally (-1) 0 msg) ∧
      message_at (db s2) M = Some msg ∧ vote_state (db s2) U M = UPVOTED
  | DOWNVOTED =>
      message_at (db s1) M = Some (add_tally 1 (-1) msg) ∧
      message_at (db s2) M = Some (add_tally 0 (-1) msg) ∧
      vote_state (db s2) U M = NONE
  end.
Proof.
  intros F1 F2 Hok Hmsg s1 s2.
  destruct (castVote_step f1 upvote U M s msg F1 Hok Hmsg) as (_ & Hst1 & Hm1).
  fold s1 in Hst1, Hm1.
  pose proof (castVote_store_ok f1 upvote U M s Hok) as Hok1. fold s1 in Hok1.
  destruct (castVote_step f2 upvote U M s1 _ F2 Hok1 Hm1) as (_ & Hst2 & Hm2).
  fold s2 in Hst2, Hm2. rewrite Hst1 in Hst2, Hm2.
  destruct msg as [i a b c up down].
  destruct (vote_state (db s) U M); simpl in *;
    rewrite Hm1, Hm2, Hst2; unfold add_tally; simpl;
    split_and!; try done; do 2 f_equal; lia.
Qed.

(** ** The cache mirror *)

Ltac stops_early :=
  left; simpl; split_and!; [reflexivity | discriminate | discriminate].

(** The change of counters a vote handler computes is the one the
    transition table gives for the vote state it read. *)
Lemma castVote_cases (f : VoteFaults) (t : VoteType) (U M : string) (s : Server) :
  let du := fst (snd (spec_toggle (vote_state (db s) U M) t)) in
  let dd := snd (snd (spec_toggle (vote_state (db s) U M) t)) in
  (castVote f t U M s = (s, snd (castVote f t U M s)) ∧
   snd (castVote f t U M s) ≠ vote_ok ∧
   snd (castVote f t U M s) ≠ fail500 "Failed to commit transaction") ∨
  (∃ up down tx,
     tally (db s) M = Some (up, down) ∧
     castVote f t U M s = finish_vote f M up down du dd tx s ∧
     counts_exec_fails f = false).
Proof.
  intros du dd. subst du dd. unfold vote_state, tally.
  destruct t; unfold castVote, upvoteMessageHandler, downvoteMessageHandler.
  all: unfold QueryRow, Exec.
  all: destruct (begin_fails f); [stops_early|].
  all: destruct (vote_query_fails f); [stops_early|].
  all: destruct (select_vote_type U M (db s)) as [|v vs].
  all: destruct (counts_query_fails f); [stops_early|].
  all: destruct (select_counts M (db s)) as [|[up down] rest]; [stops_early|].
  all: simpl; repeat (case_decide; simplify_eq; simpl).
  all: destruct (vote_exec_fails f); [stops_early|].
  all: try (destruct (insert_vote _ _ _ _) as [tx|]; [|stops_early]).
  all: destruct (counts_exec_fails f) eqn:Fu;
         [unfold finish_vote, Exec; rewrite Fu; stops_early|].
  all: right; eexists up, down, _; split; [done|]; split; done.
Qed.

(** Everything but the cache. *)
Lemma sendMessageToUser_set_rdb c u msg s :
  sendMessageToUser u msg (set_rdb c s) = set_rdb c (sendMessageToUser u msg s).
Proof. unfold sendMessageToUser, set_rdb. simpl. by repeat case_match. Qed.

Lemma handleMessages_set_rdb c msg s :
  handleMessages msg (set_rdb c s) = set_rdb c (handleMessages msg s).
Proof. unfold handleMessages. by rewrite !sendMessageToUser_set_rdb. Qed.

Lemma finish_vote_rdb f M up down du dd tx s :
  counts_exec_fails f = false →
  rdb (fst (finish_vote f M up down du dd tx s)) =
    HSet (hset_downvotes_fails f) (cache_key M) "downvotes" (int_add down dd)
      (HSet (hset_upvotes_fails f) (cache_key M) "upvotes" (int_add up du) (rdb s)) ∧
  (snd (finish_vote f M up down du dd tx s) = vote_ok ∨
   snd (finish_vote f M up down du dd tx s) = fail500 "Failed to commit transaction").
Proof.
  intros Fu. unfold finish_vote, Exec. rewrite Fu.
  destruct (commit_fails f); simpl; [by split; [|right]|].
  split; [|by left]. case_match; by rewrite ?handleMessages_rdb.
Qed.

Lemma sendMessageToUser_set_db d u msg s :
  sendMessageToUser u msg (set_db d s) = set_db d (sendMessageToUser u msg s).
Proof. unfold sendMessageToUser, set_db. simpl. by repeat case_match. Qed.

Lemma handleMessages_set_db d msg s :
  handleMessages msg (set_db d s) = set_db d (handleMessages msg s).
Proof. unfold handleMessages. by rewrite !sendMessageToUser_set_db. Qed.

(** A dispatch reads and writes the registry and the connections only. *)
Lemma handleMessages_hub msg s1 s2 :
  clients s1 = clients s2 → conns s1 = conns s2 →
  clients (handleMessages msg s1) = clients (handleMessages msg s2) ∧
  conns (handleMessages msg s1) = conns (handleMessages msg s2).
Proof.
  intros Hcl Hco.
  replace s1 with (set_db (db s1) (set_rdb (rdb s1) s2))
    by (destruct s1, s2; simpl in *; by subst).
  by rewrite handleMessages_set_db, handleMessages_set_rdb.
Qed.

Lemma finish_vote_cache_faults a b f M up down du dd tx s :
  let r := finish_vote f M up down du dd tx s in
  let r' := finish_vote (with_cache_faults a b f) M up down du dd tx s in
  db (fst r') = db (fst r) ∧ clients (fst r') = clients (fst r) ∧
  conns (fst r') = conns (fst r) ∧ snd r' = snd r.
Proof.
  unfold finish_vote, Exec. simpl.
  destruct (counts_exec_fails f); [done|].
  destruct (commit_fails f); [done|]. simpl.
  destruct (QueryRow _ _) as [m| |]; try done. simpl.
  rewrite !handleMessages_db.
  match goal with
  | |- context [clients (handleMessages m ?s1) = clients (handleMessages m ?s2)] =>
      destruct (handleMessages_hub m s1 s2 eq_refl eq_refl) as [Hcl Hco]
  end.
  split_and!; [done|exact Hcl|exact Hco|done].
Qed.

Lemma castVote_cache_faults a b f t U M s :
  let r := castVote f t U M s in
  let r' := castVote (with_cache_faults a b f) t U M s in
  db (fst r') = db (fst r) ∧ clients (fst r') = clients (fst r) ∧
  conns (fst r') = conns (fst r) ∧ snd r' = snd r.
Proof.
  destruct t; unfold castVote, upvoteMessageHandler, downvoteMessageHandler; simpl.
  all: destruct (begin_fails f); [done|].
  all: destruct (QueryRow (vote_query_fails f) _); try done.
  all: destruct (QueryRow (counts_query_fails f) _) as [[up down]| |]; try done.
  all: repeat case_decide.
  all: destruct (Exec (vote_exec_fails f) _); try done.
  all: apply finish_vote_cache_faults.
Qed.

(** C4, as the code has it: the two cache writes come after the counter
    update has succeeded inside the transaction and before the commit is
    attempted.  Whether they fail changes neither the store, nor the
    registry, nor what is pushed to the connections, nor the response; a
    request that fails before that point leaves the cache as it was; a
    request that gets there leaves in the cache, field by field, the
    counters it read plus the change it computed. *)
Theorem cache_mirror_written_in_transaction (f : VoteFaults) (t : VoteType)
    (U M : string) (s : Server) :
  let r := castVote f t U M s in
  (∀ a b, let r' := castVote (with_cache_faults a b f) t U M s in
          db (fst r') = db (fst r) ∧ clients (fst r') = clients (fst r) ∧
          conns (fst r') = conns (fst r) ∧ snd r' = snd r) ∧
  (snd r ≠ vote_ok → snd r ≠ fail500 "Failed to commit transaction" →
   rdb (fst r) = rdb s) ∧
  (snd r = vote_ok ∨ snd r = fail500 "Failed to commit transaction" →
   ∃ up down,
     tally (db s) M = Some (up, down) ∧
     rdb (fst r) =
       HSet (hset_downvotes_fails f) (cache_key M) "downvotes"
            (int_add down (snd (snd (spec_toggle (vote_state (db s) U M) t))))
         (HSet (hset_upvotes_fails f) (cache_key M) "upvotes"
               (int_add up (fst (snd (spec_toggle (vote_state (db s) U M) t))))
               (rdb s))).
Proof.
  intros r. split; [intros a b; apply castVote_cache_faults|].
  subst r.
  destruct (castVote_cases f t U M s) as [(E & N1 & N2)|(up & down & tx & Ht & E & Fu)].
  - split; [intros _ _; by rewrite E|]. intros [H|H]; done.
  - rewrite E.
    destruct (finish_vote_rdb f M up down
                (fst (snd (spec_toggle (vote_state (db s) U M) t)))
                (snd (snd (spec_toggle (vote_state (db s) U M) t))) tx s Fu)
      as [Hc Hr].
    split; [intros N1 N2; by destruct Hr|].
    intros _. by exists up, down.
Qed.

(** ** A vote on a message that does not exist *)


(** ** The registry and the connections *)

Lemma same_owners_refl cs : same_owners cs cs.
Proof. intros k w H. by exists w. Qed.

Lemma same_owners_insert cs c w w' :
  cs !! c = Some w → ws_user w' = ws_user w → same_owners cs (<[c := w']> cs).
Proof.
  intros Hc Hu k x Hk. destruct (decide (k = c)) as [->|n].
  - exists w'. rewrite list_lookup_insert_eq by (by eapply lookup_lt_Some).
    split; [done|congruence].
  - exists x. by rewrite list_lookup_insert_ne.
Qed.

Lemma WriteJSON_owners c msg cs cs' :
  WriteJSON c msg cs = Some cs' → same_owners cs cs'.
Proof.
  unfold WriteJSON. destruct (cs !! c) as [w|] eqn:E; [|done].
  destruct (ws_closed w || ws_broken w); [done|]. intros [= <-].
  by eapply same_owners_insert.
Qed.

Lemma Close_owners c cs : same_owners cs (Close c cs).
Proof.
  unfold Close. destruct (cs !! c) as [w|] eqn:E; [|apply same_owners_refl].
  by eapply same_owners_insert.
Qed.

Lemma hub_ok_mono (s s' : Server) :
  (∀ u cl, clients s' !! u = Some cl → clients s !! u = Some cl) →
  same_owners (conns s) (conns s') →
  hub_ok s → hub_ok s'.
Proof.
  intros Hcl Hco Hok u cl Hu. destruct (Hok u cl (Hcl u cl Hu)) as (E & w & Hw & Eu).
  split; [done|]. destruct (Hco _ _ Hw) as (w' & Hw' & Eu').
  exists w'. split; [done|congruence].
Qed.

Lemma sendMessageToUser_owners u msg s :
  same_owners (conns s) (conns (sendMessageToUser u msg s)).
Proof.
  unfold sendMessageToUser. destruct (clients s !! u) as [cl|]; [|apply same_owners_refl].
  destruct (WriteJSON _ _ _) eqn:E; simpl.
  - by eapply WriteJSON_owners.
  - apply Close_owners.
Qed.

Lemma sendMessageToUser_clients u msg s v cl :
  clients (sendMessageToUser u msg s) !! v = Some cl → clients s !! v = Some cl.
Proof.
  unfold sendMessageToUser. destruct (clients s !! u) as [c|]; [|done].
  destruct (WriteJSON _ _ _); simpl; [done|].
  intros H. apply lookup_delete_Some in H. by destruct H.
Qed.

Lemma sendMessageToUser_hub_ok u msg s : hub_ok s → hub_ok (sendMessageToUser u msg s).
Proof.
  apply hub_ok_mono.
  - apply sendMessageToUser_clients.
  - apply sendMessageToUser_owners.
Qed.

Lemma handleMessages_hub_ok msg s : hub_ok s → hub_ok (handleMessages msg s).
Proof. intros H. unfold handleMessages. by do 2 apply sendMessageToUser_hub_ok. Qed.

Lemma hub_ok_set_db d s : hub_ok s → hub_ok (set_db d s).
Proof. done. Qed.

Lemma hub_ok_set_rdb c s : hub_ok s → hub_ok (set_rdb c s).
Proof. done. Qed.

Lemma finish_vote_hub_ok f M up down du dd tx s :
  hub_ok s → hub_ok (fst (finish_vote f M up down du dd tx s)).
Proof.
  intros H. unfold finish_vote.
  destruct (Exec _ _); [|done]. destruct (commit_fails f); [done|]. simpl.
  destruct (QueryRow _ _); try done. by apply handleMessages_hub_ok.
Qed.

Lemma castVote_hub_ok f t U M s : hub_ok s → hub_ok (fst (castVote f t U M s)).
Proof.
  intros H.
  destruct (castVote_cases f t U M s) as [(E & _)|(up & down & tx & _ & E & _)];
    rewrite E; [done|]. by apply finish_vote_hub_ok.
Qed.

Lemma wsHandler_hub_ok fl u s : hub_ok s → hub_ok (fst (wsHandler fl u s)).
Proof.
  intros H. unfold wsHandler. destruct fl; [done|]. simpl.
  intros v cl. simpl. destruct (decide (u = v)) as [->|n].
  - rewrite lookup_insert_eq. intros [= <-]. simpl. split; [done|].
    eexists. split; [by apply list_lookup_middle|done].
  - rewrite lookup_insert_ne by done. intros Hv.
    destruct (H v cl Hv) as (E & w & Hw & Eu). split; [done|].
    exists w. split; [|done]. by apply lookup_app_l_Some.
Qed.

Lemma wsRead_hub_ok c r s : hub_ok s → hub_ok (wsRead c r s).
Proof.
  intros H. unfold wsRead. destruct (conns s !! c) as [w|] eqn:E; [|done].
  destruct (ws_done w); [done|].
  destruct (if ws_closed w || ws_broken w then None else r).
  - by apply handleMessages_hub_ok.
  - revert H. apply hub_ok_mono; simpl.
    + intros u cl Hu. apply lookup_delete_Some in Hu. by destruct Hu.
    + by eapply same_owners_insert.
Qed.

Lemma wsBreak_hub_ok c s : hub_ok s → hub_ok (wsBreak c s).
Proof.
  intros H. unfold wsBreak. destruct (conns s !! c) as [w|] eqn:E; [|done].
  revert H. apply hub_ok_mono; simpl; [done|]. by eapply same_owners_insert.
Qed.

Lemma serve_hub_ok (r : Request) (s : Server) : hub_ok s → hub_ok (serve r s).
Proof.
  intros H. destruct r; simpl.
  - unfold sendMessageHandler. destruct request; [|done].
    destruct insert_fails; [done|]. simpl. by apply handleMessages_hub_ok.
  - by rewrite getMessagesHandler_server.
  - by apply (castVote_hub_ok f upvote).
  - by apply (castVote_hub_ok f downvote).
  - by apply wsHandler_hub_ok.
  - by apply wsRead_hub_ok.
  - by apply wsBreak_hub_ok.
Qed.

Lemma run_hub_ok (rs : list Request) : hub_ok (run rs).
Proof.
  induction rs as [|r rs IH] using rev_ind.
  - intros u cl H. simpl in H. by rewrite lookup_empty in H.
  - rewrite run_snoc. by apply serve_hub_ok.
Qed.

(** ** Registration *)

Lemma filter_length_le {A : Type} (P Q : A → Prop)
    `{!∀ x, Decision (P x)} `{!∀ x, Decision (Q x)} (l : list A) :
  (∀ x, x ∈ l → P x → Q x) →
  (length (filter P l) ≤ length (filter Q l))%nat.
Proof.
  induction l as [|a l IH]; [done|]. intros Hpq.
  assert (IH' : (length (filter P l) ≤ length (filter Q l))%nat).
  { apply IH. intros x Hx. apply Hpq. by right. }
  rewrite !filter_cons. destruct (decide (P a)) as [Pa|nPa].
  - rewrite decide_True by (apply Hpq; [left|done]). simpl. lia.
  - destruct (decide (Q a)); simpl; lia.
Qed.

Lemma one_per_key {A B : Type} `{EqDecision B} (g : A → B) (k : B) (l : list A) :
  NoDup (g <$> l) → (length (filter (λ x, g x = k) l) ≤ 1)%nat.
Proof.
  induction l as [|a l IH]; [simpl; lia|].
  rewrite fmap_cons, NoDup_cons. intros [Ha Hl].
  rewrite filter_cons. destruct (decide (g a = k)) as [e|n]; [|by apply IH].
  replace (filter (λ x, g x = k) l) with (@nil A); [simpl; lia|].
  symmetry. apply filter_none_all. intros x Hx Hk.
  apply Ha. rewrite e, <- Hk. by apply list_elem_of_fmap_2.
Qed.

Lemma one_entry_per_user (s : Server) (u : string) :
  hub_ok s →
  (length (filter (λ e, UserID (snd e) = u) (map_to_list (clients s))) ≤ 1)%nat.
Proof.
  intros Hok.
  etrans; [|apply (one_per_key (@fst string Client) u), NoDup_fst_map_to_list].
  apply filter_length_le. intros [k cl] Hin Hu. simpl in *.
  apply elem_of_map_to_list in Hin. destruct (Hok k cl Hin) as [E _]. congruence.
Qed.

(** C6, as the code has it: the registry never holds two entries for a
    user; registering a user installs the new channel as the user's entry
    whether or not there was one, leaves the entries of other users alone
    and leaves a prior channel of the user exactly as it was (it is not
    closed); deregistering removes the entry of the user, leaves the
    others alone and changes nothing when the user has no entry, and it
    is what a failed read on a connection does for the user it serves. *)
Theorem registry_last_registration_wins (rs : list Request) (u : string) :
  let s := run rs in
  let s' := register u s in
  (length (filter (λ e, UserID (snd e) = u) (map_to_list (clients s))) ≤ 1)%nat ∧
  clients s' !! u = Some (mkClient u (length (conns s))) ∧
  conns s' !! length (conns s) = Some (mkWsConn u false false false []) ∧
  (∀ v, v ≠ u → clients s' !! v = clients s !! v) ∧
  (∀ old, clients s !! u = Some old →
          Conn old ≠ length (conns s) ∧ is_Some (conns s !! Conn old) ∧
          conns s' !! Conn old = conns s !! Conn old) ∧
  deregister u (clients s) !! u = None ∧
  (∀ v, v ≠ u → deregister u (clients s) !! v = clients s !! v) ∧
  (clients s !! u = None → deregister u (clients s) = clients s) ∧
  (∀ c w, conns s !! c = Some w → ws_done w = false →
          clients (wsRead c None s) = deregister (ws_user w) (clients s)).
Proof.
  intros s s'. pose proof (run_hub_ok rs) as Hok. fold s in Hok.
  subst s'. unfold register, wsHandler, deregister. simpl.
  split_and!.
  - by apply one_entry_per_user.
  - by rewrite lookup_insert_eq.
  - by apply list_lookup_middle.
  - intros v Hv. by rewrite lookup_insert_ne.
  - intros old Hold. destruct (Hok u old Hold) as (_ & w & Hw & _).
    pose proof (lookup_lt_Some _ _ _ Hw) as Hlt.
    split_and!; [lia|by eexists|]. by rewrite lookup_app_l.
  - by rewrite lookup_delete_eq.
  - intros v Hv. by rewrite lookup_delete_ne.
  - apply delete_id.
  - intros c w Hc Hd. unfold wsRead. rewrite Hc, Hd.
    by destruct (ws_closed w || ws_broken w).
Qed.

(** ** Delivery *)

Lemma sendMessageToUser_others u msg s :
  hub_ok s →
  let s' := sendMessageToUser u msg s in
  (∀ v, v ≠ u → clients s' !! v = clients s !! v) ∧
  (∀ k w, conns s !! k = Some w → ws_user w ≠ u → conns s' !! k = Some w).
Proof.
  intros Hok s'. subst s'. unfold sendMessageToUser.
  destruct (clients s !! u) as [cl|] eqn:Ecl; [|done].
  destruct (Hok u cl Ecl) as (_ & w0 & Hw0 & Eu0).
  unfold WriteJSON, Close. rewrite Hw0.
  destruct (ws_closed w0 || ws_broken w0); simpl.
  - split; [intros v Hv; by rewrite lookup_delete_ne|].
    intros k w Hk Hu. rewrite list_lookup_insert_ne; [done|]. intros <-. congruence.
  - split; [done|].
    intros k w Hk Hu. rewrite list_lookup_insert_ne; [done|]. intros <-. congruence.
Qed.

Lemma sendMessageToUser_own u msg s cl :
  hub_ok s →
  clients s !! u = Some cl →
  let s' := sendMessageToUser u msg s in
  if writable s (Conn cl)
  then clients s' !! u = Some cl ∧ writable s' (Conn cl) = true ∧
       sent_on s' (Conn cl) = sent_on s (Conn cl) ++ [msg]
  else clients s' !! u = None ∧ writable s' (Conn cl) = false ∧
       sent_on s' (Conn cl) = sent_on s (Conn cl).
Proof.
  intros Hok Ecl s'. subst s'. unfold sendMessageToUser, writable, sent_on. rewrite Ecl.
  destruct (Hok u cl Ecl) as (_ & w0 & Hw0 & Eu0).
  pose proof (lookup_lt_Some _ _ _ Hw0) as Hlt.
  unfold WriteJSON, Close. rewrite Hw0.
  destruct (ws_closed w0 || ws_broken w0) eqn:Ew; simpl.
  - rewrite lookup_delete_eq, list_lookup_insert_eq by done. done.
  - rewrite Ecl, list_lookup_insert_eq by done. simpl. by rewrite Ew.
Qed.

Lemma sendMessageToUser_unregistered u msg s :
  clients s !! u = None → sendMessageToUser u msg s = s.
Proof. unfold sendMessageToUser. by intros ->. Qed.

Lemma same_conn_seen s s' c :
  conns s' !! c = conns s !! c →
  writable s' c = writable s c ∧ sent_on s' c = sent_on s c.
Proof. unfold writable, sent_on. by intros ->. Qed.

(** What the two pushes of one dispatch do for a participant, when the
    sender and the receiver are different users. *)
Lemma handleMessages_delivers (msg : Message) (s : Server) (u : string) :
  hub_ok s →
  Sender msg ≠ Receiver msg →
  u = Sender msg ∨ u = Receiver msg →
  let s' := handleMessages msg s in
  match clients s !! u with
  | None =>
      clients s' !! u = None ∧
      ∀ k w, conns s !! k = Some w → ws_user w = u → conns s' !! k = Some w
  | Some cl =>
      if writable s (Conn cl)
      then clients s' !! u = Some cl ∧
           sent_on s' (Conn cl) = sent_on s (Conn cl) ++ [msg]
      else clients s' !! u = None ∧ writable s' (Conn cl) = false ∧
           sent_on s' (Conn cl) = sent_on s (Conn cl)
  end.
Proof.
  intros Hok Hne Hu s'. subst s'. unfold handleMessages.
  set (a := Sender msg) in *. set (b := Receiver msg) in *.
  set (s1 := sendMessageToUser a msg s).
  assert (Hok1 : hub_ok s1) by by apply sendMessageToUser_hub_ok.
  destruct (sendMessageToUser_others a msg s Hok) as [Hcl1 Hco1]. fold s1 in Hcl1, Hco1.
  destruct (sendMessageToUser_others b msg s1 Hok1) as [Hcl2 Hco2].
  destruct Hu as [->| ->].
  - (* the sender *)
    rewrite Hcl2 by done.
    destruct (clients s !! a) as [cl|] eqn:Ecl.
    + destruct (Hok a cl Ecl) as (_ & w0 & Hw0 & Eu0).
      destruct (sendMessageToUser_owners a msg s _ _ Hw0) as (w1 & Hw1 & Eu1).
      fold s1 in Hw1.
      assert (Hsame : conns (sendMessageToUser b msg s1) !! Conn cl = conns s1 !! Conn cl).
      { rewrite Hw1. apply Hco2; [done|congruence]. }
      destruct (same_conn_seen _ _ _ Hsame) as [-> ->].
      pose proof (sendMessageToUser_own a msg s cl Hok Ecl) as Hown. fold s1 in Hown.
      destruct (writable s (Conn cl)); simpl in Hown; tauto.
    + assert (Es1 : s1 = s) by by apply sendMessageToUser_unregistered.
      rewrite Es1 in *. split; [done|].
      intros k w Hk Hw. apply Hco2; [done|congruence].
  - (* the receiver *)
    assert (Ecl1 : clients s1 !! b = clients s !! b) by (apply Hcl1; congruence).
    destruct (clients s !! b) as [cl|] eqn:Ecl.
    + destruct (Hok b cl Ecl) as (_ & w0 & Hw0 & Eu0).
      assert (Hsame : conns s1 !! Conn cl = conns s !! Conn cl).
      { rewrite Hw0. apply Hco1; [done|congruence]. }
      destruct (same_conn_seen _ _ _ Hsame) as [<- <-].
      pose proof (sendMessageToUser_own b msg s1 cl Hok1 Ecl1) as Hown.
      destruct (writable s1 (Conn cl)); simpl in Hown; tauto.
    + rewrite (sendMessageToUser_unregistered b msg s1 Ecl1). split; [done|].
      intros k w Hk Hw. apply Hco1; [done|congruence].
Qed.

(** A push that fails closes the connection. *)
Lemma sendMessageToUser_closes u msg s cl :
  hub_ok s →
  clients s !! u = Some cl →
  writable s (Conn cl) = false →
  (ws_closed <$> conns (sendMessageToUser u msg s) !! Conn cl) = Some true.
Proof.
  intros Hok Ecl Hw. unfold sendMessageToUser, writable in *. rewrite Ecl.
  destruct (Hok u cl Ecl) as (_ & w0 & Hw0 & Eu0).
  pose proof (lookup_lt_Some _ _ _ Hw0) as Hlt.
  unfold WriteJSON, Close. rewrite Hw0 in *.
  destruct (ws_closed w0 || ws_broken w0); [|done]. simpl.
  by rewrite list_lookup_insert_eq.
Qed.

Lemma handleMessages_closes (msg : Message) (s : Server) (u : string) (cl : Client) :
  hub_ok s →
  u = Sender msg ∨ u = Receiver msg →
  clients s !! u = Some cl →
  writable s (Conn cl) = false →
  (ws_closed <$> conns (handleMessages msg s) !! Conn cl) = Some true.
Proof.
  intros Hok Hu Ecl Hw. unfold handleMessages.
  set (a := Sender msg) in *. set (b := Receiver msg) in *.
  set (s1 := sendMessageToUser a msg s).
  assert (Hok1 : hub_ok s1) by by apply sendMessageToUser_hub_ok.
  destruct (sendMessageToUser_others a msg s Hok) as [Hcl1 Hco1]. fold s1 in Hcl1, Hco1.
  destruct (sendMessageToUser_others b msg s1 Hok1) as [Hcl2 Hco2].
  destruct (Hok u cl Ecl) as (_ & w0 & Hw0 & Eu0).
  destruct (decide (u = a)) as [->|Hua].
  - pose proof (sendMessageToUser_closes a msg s cl Hok Ecl Hw) as Hc. fold s1 in Hc.
    pose proof (sendMessageToUser_own a msg s cl Hok Ecl) as Hown. fold s1 in Hown.
    rewrite Hw in Hown. simpl in Hown. destruct Hown as (Ecl1 & _).
    destruct (decide (b = a)) as [->|Hba].
    + by rewrite (sendMessageToUser_unregistered a msg s1 Ecl1).
    + destruct (sendMessageToUser_owners a msg s _ _ Hw0) as (w1 & Hw1 & Eu1).
      fold s1 in Hw1. rewrite (Hco2 _ w1 Hw1) by congruence. by rewrite Hw1 in Hc.
  - assert (u = b) as -> by (by destruct Hu).
    assert (Ecl1 : clients s1 !! b = Some cl) by (by rewrite Hcl1).
    assert (Hsame : conns s1 !! Conn cl = conns s !! Conn cl).
    { rewrite Hw0. apply Hco1; [done|congruence]. }
    destruct (same_conn_seen _ _ _ Hsame) as [Hw1 _].
    apply sendMessageToUser_closes; [done..|]. by rewrite Hw1.
Qed.

(** The two pushes of one dispatch when sender and receiver are the same
    user: the second finds the user as the first left them. *)
Lemma handleMessages_self (msg : Message) (s : Server) :
  hub_ok s →
  Sender msg = Receiver msg →
  let u := Sender msg in
  let s' := handleMessages msg s in
  match clients s !! u with
  | None => s' = s
  | Some cl =>
      if writable s (Conn cl)
      then clients s' !! u = Some cl ∧
           sent_on s' (Conn cl) = sent_on s (Conn cl) ++ [msg; msg]
      else clients s' !! u = None ∧ writable s' (Conn cl) = false ∧
           sent_on s' (Conn cl) = sent_on s (Conn cl)
  end.
Proof.
  intros Hok E u s'. subst u s'. unfold handleMessages. rewrite <- E.
  set (a := Sender msg) in *. set (s1 := sendMessageToUser a msg s).
  assert (Hok1 : hub_ok s1) by by apply sendMessageToUser_hub_ok.
  destruct (clients s !! a) as [cl|] eqn:Ecl.
  - pose proof (sendMessageToUser_own a msg s cl Hok Ecl) as H1. fold s1 in H1.
    destruct (writable s (Conn cl)); simpl in H1.
    + destruct H1 as (Ecl1 & Hw1 & Hs1).
      pose proof (sendMessageToUser_own a msg s1 cl Hok1 Ecl1) as H2.
      rewrite Hw1 in H2. simpl in H2. destruct H2 as (Ecl2 & _ & Hs2).
      split; [done|]. by rewrite Hs2, Hs1, <- app_assoc.
    + destruct H1 as (Ecl1 & Hw1 & Hs1).
      by rewrite (sendMessageToUser_unregistered a msg s1 Ecl1).
  - assert (Es1 : s1 = s) by by apply sendMessageToUser_unregistered.
    rewrite Es1. by apply sendMessageToUser_unregistered.
Qed.

(** What one dispatch does for a participant of the message. *)
Lemma handleMessages_pushes (msg : Message) (s : Server) (u : string) :
  hub_ok s →
  u = Sender msg ∨ u = Receiver msg →
  let s' := handleMessages msg s in
  match clients s !! u with
  | None =>
      clients s' !! u = None ∧
      ∀ k w, conns s !! k = Some w → ws_user w = u → conns s' !! k = Some w
  | Some cl =>
      if writable s (Conn cl)
      then clients s' !! u = Some cl ∧
           (Sender msg ≠ Receiver msg →
            sent_on s' (Conn cl) = sent_on s (Conn cl) ++ [msg]) ∧
           (Sender msg = Receiver msg →
            sent_on s' (Conn cl) = sent_on s (Conn cl) ++ [msg; msg])
      else clients s' !! u = None ∧ writable s' (Conn cl) = false ∧
           (ws_closed <$> conns s' !! Conn cl) = Some true ∧
           sent_on s' (Conn cl) = sent_on s (Conn cl)
  end.
Proof.
  intros Hok Hu s'. subst s'.
  destruct (decide (Sender msg = Receiver msg)) as [E|Hne].
  - assert (u = Sender msg) as -> by (destruct Hu; congruence).
    pose proof (handleMessages_self msg s Hok E) as Hs. simpl in Hs.
    destruct (clients s !! Sender msg) as [cl|] eqn:Ecl.
    + pose proof (λ Hw, handleMessages_closes msg s _ cl Hok (or_introl eq_refl) Ecl Hw) as Hc.
      destruct (writable s (Conn cl)).
      * destruct Hs as [H1 H2]. by split_and!.
      * destruct Hs as (H1 & H2 & H3). split_and!; [done|done|by apply Hc|done].
    + rewrite Hs. by split.
  - pose proof (handleMessages_delivers msg s u Hok Hne Hu) as Hd. simpl in Hd.
    destruct (clients s !! u) as [cl|] eqn:Ecl; [|done].
    pose proof (λ Hw, handleMessages_closes msg s u cl Hok Hu Ecl Hw) as Hc.
    destruct (writable s (Conn cl)).
    + destruct Hd as [H1 H2]. by split_and!.
    + destruct Hd as (H1 & H2 & H3). split_and!; [done|done|by apply Hc|done].
Qed.


(** A dispatched message reaches every participant that is registered
    on a connection that takes the push, also when the sender and the
    receiver are the same user. *)
Lemma handleMessages_reaches (msg : Message) (s : Server) (u : string) (cl : Client) :
  hub_ok s →
  u = Sender msg ∨ u = Receiver msg →
  clients s !! u = Some cl →
  writable s (Conn cl) = true →
  msg ∈ sent_on (handleMessages msg s) (Conn cl).
Proof.
  intros Hok Hu Ecl Hw.
  destruct (decide (Sender msg = Receiver msg)) as [e|n].
  - assert (Eu : u = Sender msg) by (destruct Hu; congruence). subst u.
    unfold handleMessages. rewrite <- e.
    pose proof (sendMessageToUser_own _ msg s cl Hok Ecl) as H1.
    rewrite Hw in H1. simpl in H1. destruct H1 as (Ecl1 & Hw1 & Hs1).
    pose proof (sendMessageToUser_own _ msg _ cl
                  (sendMessageToUser_hub_ok _ msg s Hok) Ecl1) as H2.
    rewrite Hw1 in H2. simpl in H2. destruct H2 as (_ & _ & ->).
    apply elem_of_app. right. by apply list_elem_of_singleton.
  - pose proof (handleMessages_delivers msg s u Hok n Hu) as H.
    rewrite Ecl, Hw in H. simpl in H. destruct H as [_ ->].
    apply elem_of_app. right. by apply list_elem_of_singleton.
Qed.

(** ** Sending a message *)

(** C9: the row a send request stores has both counters at 0, while the
    message returned to the caller and handed to the dispatcher is the
    request's own, counters included, with only the id replaced by the
    one the store assigned; so with a non-zero counter in the request the
    caller and the connections are given counters that the stored row
    does not have. *)
Theorem sendMessage_echoes_request_counters (rs : list Request) (msg : Message) :
  let s := run rs in
  let r := sendMessageHandler false (BindOk msg) s in
  let id := next_id (db s) in
  let msg' := mkMessage (fmt_d id) (Sender msg) (Receiver msg) (Content msg)
                        (Upvotes msg) (Downvotes msg) in
  let stored := mkMessage (fmt_d id) (Sender msg) (Receiver msg) (Content msg) 0 0 in
  messages (db (fst r)) =
    messages (db s) ++ [mkMessageRow id (Sender msg) (Receiver msg) (Content msg) 0 0] ∧
  message_at (db (fst r)) (fmt_d id) = Some stored ∧
  snd r = mkResponse Http.StatusCreated (JMessage msg') ∧
  fst r = handleMessages msg'
            (set_db (fst (insert_message (Sender msg) (Receiver msg) (Content msg) (db s))) s) ∧
  (∀ u cl, u = Sender msg ∨ u = Receiver msg →
           clients s !! u = Some cl → writable s (Conn cl) = true →
           msg' ∈ sent_on (fst r) (Conn cl)) ∧
  (Upvotes msg ≠ 0 ∨ Downvotes msg ≠ 0 → stored ≠ msg').
Proof.
  intros s r id msg' stored.
  pose proof (run_hub_ok rs) as Hhub. pose proof (run_store_ok rs) as Hok.
  fold s in Hhub, Hok.
  assert (Hdb : messages (db (fst r)) =
                messages (db s) ++ [mkMessageRow id (Sender msg) (Receiver msg) (Content msg) 0 0]).
  { subst r. unfold sendMessageHandler. simpl. by rewrite handleMessages_db. }
  split_and!.
  - done.
  - unfold message_at, select_message. rewrite Hdb, filter_app.
    replace (filter (has_id (fmt_d id)) (messages (db s))) with (@nil MessageRow).
    + by rewrite filter_cons_True by (by apply has_id_fmt_d).
    + symmetry. apply filter_none_all. intros x Hx Hid.
      apply has_id_fmt_d in Hid. pose proof (ok_ids _ Hok x Hx). subst id. lia.
  - done.
  - done.
  - intros u cl Hu Ecl Hw. subst r. unfold sendMessageHandler. simpl.
    by apply (handleMessages_reaches msg' (set_db _ s) u cl).
  - intros H E. injection E as E1 E2. destruct H; congruence.
Qed.

(** ** Messages written by a client on its connection *)

(** C10: a message read from a live connection goes to the dispatcher as
    it is: it is pushed to the connections registered for the sender and
    the receiver it names, whoever the user of the reading connection
    is; the store is not touched, so every read of a conversation
    answers after the event what it answered before. *)
Theorem wsRead_forwards_without_storing (rs : list Request) (c : nat) (w : WsConn)
    (msg : Message) :
  let s := run rs in
  let s' := wsRead c (Some msg) s in
  conns s !! c = Some w →
  ws_done w = false → ws_closed w = false → ws_broken w = false →
  s' = handleMessages msg s ∧
  db s' = db s ∧
  (∀ fl a b, snd (getMessagesHandler fl a b s') = snd (getMessagesHandler fl a b s)) ∧
  (∀ u cl, u = Sender msg ∨ u = Receiver msg →
           clients s !! u = Some cl → writable s (Conn cl) = true →
           msg ∈ sent_on s' (Conn cl)).
Proof.
  intros s s' Hc Hd Hcl Hb. pose proof (run_hub_ok rs) as Hhub. fold s in Hhub.
  assert (E : s' = handleMessages msg s).
  { subst s'. unfold wsRead. by rewrite Hc, Hd, Hcl, Hb. }
  assert (Edb : db s' = db s) by (rewrite E; apply handleMessages_db).
  split_and!; [done|done|..].
  - intros fl a b. unfold getMessagesHandler. rewrite Edb. by repeat case_match.
  - intros u cl Hu Ecl Hw. rewrite E. by apply (handleMessages_reaches msg s u cl).
Qed.

(** * Further properties *)

(** ** Votes: what a request can and cannot change *)

(** The store after a vote request is the one before, or the transaction
    of one write to [user_votes] and the counter update. *)
Lemma castVote_tx (f : VoteFaults) (t : VoteType) (U M : string) (s : Server) :
  (castVote f t U M s = (s, snd (castVote f t U M s)) ∧
   snd (castVote f t U M s) ≠ vote_ok) ∨
  (∃ up down du dd tx,
     vote_write U M (db s) tx ∧
     castVote f t U M s = finish_vote f M up down du dd tx s).
Proof.
  destruct t; unfold castVote, upvoteMessageHandler, downvoteMessageHandler.
  all: unfold QueryRow, Exec.
  all: destruct (begin_fails f); [by left|].
  all: destruct (vote_query_fails f); [by left|].
  all: destruct (select_vote_type U M (db s)) as [|v vs].
  all: destruct (counts_query_fails f); [by left|].
  all: destruct (select_counts M (db s)) as [|[up down] rest]; [by left|].
  all: simpl; repeat (case_decide; simplify_eq; simpl).
  all: destruct (vote_exec_fails f); [by left|].
  all: try (destruct (insert_vote _ _ _ _) as [tx|] eqn:Ei; [|by left]).
  all: right; eexists up, down, _, _, _; (split; [|reflexivity]).
  all: unfold vote_write; eauto.
Qed.

Lemma finish_vote_failed f M up down du dd tx s :
  snd (finish_vote f M up down du dd tx s) ≠ vote_ok →
  db (fst (finish_vote f M up down du dd tx s)) = db s ∧
  clients (fst (finish_vote f M up down du dd tx s)) = clients s ∧
  conns (fst (finish_vote f M up down du dd tx s)) = conns s.
Proof.
  unfold finish_vote, Exec.
  destruct (counts_exec_fails f); [done|].
  destruct (commit_fails f); [done|]. simpl. done.
Qed.

(** X1: a vote request that is not answered with success has changed
    neither the store, nor the registry, nor any connection: no vote
    record, no counter, and nothing pushed. *)
Theorem failed_vote_changes_nothing (f : VoteFaults) (t : VoteType) (U M : string)
    (s : Server) :
  snd (castVote f t U M s) ≠ vote_ok →
  db (fst (castVote f t U M s)) = db s ∧
  clients (fst (castVote f t U M s)) = clients s ∧
  conns (fst (castVote f t U M s)) = conns s.
Proof.
  destruct (castVote_tx f t U M s) as [[E _]|(up & down & du & dd & tx & _ & E)];
    rewrite E; [done|]. apply finish_vote_failed.
Qed.

(** Rows of other pairs and of other messages under the three writes. *)
Lemma vote_write_frame U M d tx :
  vote_write U M d tx →
  messages tx = messages d ∧ next_id tx = next_id d ∧
  ∀ U' M', U' ≠ U ∨ read_int M' ≠ read_int M →
           filter (vote_of U' M') (user_votes tx) = filter (vote_of U' M') (user_votes d).
Proof.
  intros [->|[[T' ->]|[T' Hi]]].
  - split; [done|]. split; [done|]. intros U' M' Hne. simpl.
    rewrite list_filter_filter. apply list_filter_iff.
    intros v. unfold vote_of. split; [tauto|]. intros [Hu Hm].
    split; [done|]. intros [Hu' Hm']. destruct Hne; congruence.
  - split; [done|]. split; [done|]. intros U' M' Hne. simpl.
    induction (user_votes d) as [|v l IH]; [done|].
    rewrite fmap_cons, !filter_cons, IH.
    destruct (decide (vote_of U M v)) as [[Hu Hm]|n]; [|done].
    rewrite !decide_False; [done|..]; unfold vote_of; simpl;
      intros [Hu' Hm']; destruct Hne; congruence.
  - unfold insert_vote in Hi.
    destruct (read_int M) as [id|] eqn:Eid; [|done].
    destruct (filter (vote_of U M) (user_votes d)); [|done]. injection Hi as <-.
    split; [done|]. split; [done|]. intros U' M' Hne. simpl.
    rewrite filter_app, filter_cons_False, filter_nil, app_nil_r; [done|].
    unfold vote_of. simpl. intros [Hu' Hm']. destruct Hne; congruence.
Qed.

Lemma select_message_update_counts_other du dd M M' d :
  read_int M' ≠ read_int M →
  select_message M' (update_counts du dd M d) = select_message M' d.
Proof.
  intros Hne. unfold select_message, update_counts. simpl. f_equal.
  induction (messages d) as [|r l IH]; [done|].
  rewrite fmap_cons, !filter_cons, IH.
  destruct (decide (has_id M r)) as [e|n]; [|done].
  unfold has_id in *. simpl. rewrite !decide_False by congruence. done.
Qed.

(** X2: a vote request of user U under the id text M, whatever its
    outcome, leaves as they were the vote record of every other user and
    the vote records and rows of every message other than the one whose
    id the store reads from M (an id text that is read as the same
    integer names the same message), and creates no message. *)
Theorem vote_touches_one_pair (f : VoteFaults) (t : VoteType) (U M : string)
    (s : Server) :
  let d' := db (fst (castVote f t U M s)) in
  (∀ U' M', U' ≠ U ∨ read_int M' ≠ read_int M →
            select_vote_type U' M' d' = select_vote_type U' M' (db s) ∧
            vote_state d' U' M' = vote_state (db s) U' M') ∧
  (∀ M', read_int M' ≠ read_int M → select_message M' d' = select_message M' (db s)) ∧
  (∀ r, r ∈ messages (db s) → ¬ has_id M r → r ∈ messages d') ∧
  length (messages d') = length (messages (db s)) ∧
  next_id d' = next_id (db s).
Proof.
  intros d'.
  assert (Hd : d' = db s ∨ ∃ du dd tx, vote_write U M (db s) tx ∧
                                        d' = update_counts du dd M tx).
  { subst d'.
    destruct (castVote_tx f t U M s) as [[E _]|(up & down & du & dd & tx & Hw & E)];
      rewrite E; [by left|].
    rewrite finish_vote_db. destruct (_ || _); [by left|right; eauto]. }
  destruct Hd as [->|(du & dd & tx & Hw & ->)]; [by split_and!|].
  destruct (vote_write_frame U M _ tx Hw) as (Hm & Hn & Hv).
  split_and!.
  - intros U' M' Hne. unfold vote_state, select_vote_type. simpl.
    by rewrite (Hv U' M' Hne).
  - intros M' Hne. rewrite select_message_update_counts_other by done.
    unfold select_message. by rewrite Hm.
  - intros r Hr Hid. simpl. rewrite Hm. apply list_elem_of_fmap.
    exists r. by rewrite decide_False.
  - simpl. by rewrite length_fmap, Hm.
  - simpl. done.
Qed.

(** ** Votes: sequences *)

Lemma toggle_delta (st : VoteState) (t : VoteType) :
  fst (snd (spec_toggle st t)) =
    fst (contribution (fst (spec_toggle st t))) - fst (contribution st) ∧
  snd (snd (spec_toggle st t)) =
    snd (contribution (fst (spec_toggle st t))) - snd (contribution st).
Proof. by destruct st, t. Qed.

(** X3: however many vote requests a user makes on a message, and in
    whatever order, the counters of the message differ from where they
    started by exactly the difference between what the user's vote state
    contributes at the end and what it contributed at the start; the final
    vote state is the one the transition table reaches. *)
Theorem votes_conserve_tally (ts : list (VoteFaults * VoteType)) (U M : string)
    (s : Server) (msg : Message) :
  Forall (λ ft, store_up (fst ft)) ts →
  store_ok (db s) →
  message_at (db s) M = Some msg →
  let s' := castVotes ts U M s in
  let st := vote_state (db s) U M in
  let st' := vote_state (db s') U M in
  st' = toggles ts st ∧
  message_at (db s') M =
    Some (add_tally (fst (contribution st') - fst (contribution st))
                    (snd (contribution st') - snd (contribution st)) msg).
Proof.
  intros Hts. revert s msg.
  induction Hts as [|[f t] ts Hf Hts IH]; intros s msg Hok Hmsg; simpl.
  - split; [done|]. rewrite Hmsg. destruct msg. unfold add_tally. simpl.
    do 2 f_equal; lia.
  - destruct (castVote_step f t U M s msg Hf Hok Hmsg) as (_ & Hst1 & Hm1).
    pose proof (castVote_store_ok f t U M s Hok) as Hok1.
    destruct (IH _ _ Hok1 Hm1) as [Hst' Hm']. simpl in Hst', Hm'.
    unfold castVotes, toggles in *. simpl.
    rewrite Hst1 in Hst'. split; [done|].
    rewrite Hm'. destruct (toggle_delta (vote_state (db s) U M) t) as [-> ->].
    rewrite Hst1. unfold add_tally. simpl. do 2 f_equal; lia.
Qed.

(** ** Votes: the event that follows a commit *)

Lemma finish_vote_pushes f M up down du dd tx s :
  counts_exec_fails f = false → commit_fails f = false → reread_fails f = false →
  ∀ updated rest,
    select_message M (update_counts du dd M tx) = updated :: rest →
    clients (fst (finish_vote f M up down du dd tx s)) = clients (handleMessages updated s) ∧
    conns (fst (finish_vote f M up down du dd tx s)) = conns (handleMessages updated s).
Proof.
  intros Fu Fm Fr updated rest Hsel. unfold finish_vote, Exec.
  rewrite Fu, Fm, Fr. simpl. rewrite Hsel. simpl.
  by apply handleMessages_hub.
Qed.

Lemma sendMessageToUser_bystander u msg s v :
  hub_ok s → v ≠ u →
  clients (sendMessageToUser u msg s) !! v = clients s !! v ∧
  ∀ k w, conns s !! k = Some w → ws_user w = v →
         conns (sendMessageToUser u msg s) !! k = Some w.
Proof.
  intros Hok Hne. destruct (sendMessageToUser_others u msg s Hok) as [Hcl Hco].
  split; [by apply Hcl|]. intros k w Hk Hw. apply Hco; [done|congruence].
Qed.

(** A dispatch leaves alone whoever is neither sender nor receiver. *)
Lemma handleMessages_bystander msg s v :
  hub_ok s → v ≠ Sender msg → v ≠ Receiver msg →
  clients (handleMessages msg s) !! v = clients s !! v ∧
  ∀ k w, conns s !! k = Some w → ws_user w = v →
         conns (handleMessages msg s) !! k = Some w.
Proof.
  intros Hok Hs Hr. unfold handleMessages.
  destruct (sendMessageToUser_bystander (Sender msg) msg s v Hok Hs) as [Hc1 Hk1].
  destruct (sendMessageToUser_bystander (Receiver msg) msg
              (sendMessageToUser (Sender msg) msg s) v
              (sendMessageToUser_hub_ok (Sender msg) msg s Hok) Hr) as [Hc2 Hk2].
  split; [by rewrite Hc2|]. intros k w Hk Hw. apply Hk2; [by apply Hk1|done].
Qed.

(** X4: after a vote that commits and whose re-read succeeds, the message
    as it now stands in the store (new counters included) is pushed to
    each participant of the message registered on a connection that takes
    the push, once when sender and receiver are different users and twice
    for a message a user sent to themselves; an unregistered participant
    gets nothing; one whose push fails is deregistered, the connection is
    closed and is sent nothing.  The voter, when neither sender nor
    receiver, is pushed nothing. *)
Theorem vote_pushes_new_tally (rs : list Request) (f : VoteFaults) (t : VoteType)
    (U M : string) (msg : Message) (u : string) :
  let s := run rs in
  let s' := fst (castVote f t U M s) in
  store_up f → reread_fails f = false →
  message_at (db s) M = Some msg →
  u = Sender msg ∨ u = Receiver msg →
  ∃ updated,
    message_at (db s') M = Some updated ∧
    Sender updated = Sender msg ∧ Receiver updated = Receiver msg ∧
    match clients s !! u with
    | None =>
        clients s' !! u = None ∧
        ∀ k w, conns s !! k = Some w → ws_user w = u → conns s' !! k = Some w
    | Some cl =>
        if writable s (Conn cl)
        then clients s' !! u = Some cl ∧
             (Sender msg ≠ Receiver msg →
              sent_on s' (Conn cl) = sent_on s (Conn cl) ++ [updated]) ∧
             (Sender msg = Receiver msg →
              sent_on s' (Conn cl) = sent_on s (Conn cl) ++ [updated; updated])
        else clients s' !! u = None ∧ writable s' (Conn cl) = false ∧
             (ws_closed <$> conns s' !! Conn cl) = Some true ∧
             sent_on s' (Conn cl) = sent_on s (Conn cl)
    end ∧
    (U ≠ Sender msg → U ≠ Receiver msg →
     clients s' !! U = clients s !! U ∧
     ∀ k w, conns s !! k = Some w → ws_user w = U → conns s' !! k = Some w).
Proof.
  intros s s' Hf Fr Hmsg Hu.
  pose proof (run_hub_ok rs) as Hhub. pose proof (run_store_ok rs) as Hok.
  fold s in Hhub, Hok.
  destruct (castVote_step f t U M s msg Hf Hok Hmsg) as (_ & _ & Hm'). fold s' in Hm'.
  set (updated := mkMessage (ID msg) (Sender msg) (Receiver msg) (Content msg)
                    (Upvotes msg + fst (snd (spec_toggle (vote_state (db s) U M) t)))
                    (Downvotes msg + snd (snd (spec_toggle (vote_state (db s) U M) t)))) in *.
  exists updated. split; [done|]. split; [done|]. split; [done|].
  assert (Hhubs : clients s' = clients (handleMessages updated s) ∧
                  conns s' = conns (handleMessages updated s)).
  { destruct Hf as (Fb & Fv & Fc & Fe & Fu & Fm).
    subst s'. revert Hm'.
    destruct (castVote_tx f t U M s) as [[E Hn]|(up & down & du & dd & tx & _ & E)].
    - destruct (castVote_step f t U M s msg) as (Hr & _); [done..|]. by rewrite Hr in Hn.
    - rewrite E. rewrite finish_vote_db, Fu, Fm. simpl. unfold message_at.
      destruct (select_message M (update_counts du dd M tx)) as [|m0 rest] eqn:Es; [done|].
      intros [= ->]. by eapply finish_vote_pushes. }
  destruct Hhubs as [Hcl Hco].
  assert (Hseen : ∀ c, sent_on s' c = sent_on (handleMessages updated s) c ∧
                        writable s' c = writable (handleMessages updated s) c).
  { intros c. unfold sent_on, writable. by rewrite Hco. }
  split.
  - pose proof (handleMessages_pushes updated s u Hhub Hu) as Hd.
    rewrite Hcl, Hco. destruct (clients s !! u) as [cl|]; [|done].
    destruct (Hseen (Conn cl)) as [-> ->]. done.
  - intros HU1 HU2. rewrite Hcl, Hco.
    by apply (handleMessages_bystander updated s U).
Qed.

(** ** Reading a conversation *)

Lemma between_sym a b r : between a b r ↔ between b a r.
Proof. unfold between. tauto. Qed.

Lemma select_conversation_sym a b d : select_conversation a b d = select_conversation b a d.
Proof.
  unfold select_conversation. f_equal. apply list_filter_iff. intros r. apply between_sym.
Qed.

(** What a read answers depends on the faults and on the rows selected. *)
Lemma getMessagesHandler_rows f a b s s' :
  select_conversation a b (db s') = select_conversation a b (db s) →
  snd (getMessagesHandler f a b s') = snd (getMessagesHandler f a b s).
Proof. unfold getMessagesHandler. intros ->. by repeat case_match. Qed.

(** A read is answered with 200 only with the rows selected, and is so
    answered when the store does not fail. *)
Lemma getMessagesHandler_only f a b s :
  status (snd (getMessagesHandler f a b s)) = Http.StatusOK →
  snd (getMessagesHandler f a b s)
    = mkResponse Http.StatusOK (JMessages (select_conversation a b (db s))).
Proof. unfold getMessagesHandler. by repeat case_match. Qed.

Lemma getMessagesHandler_ok a b s :
  snd (getMessagesHandler rows_ok a b s)
    = mkResponse Http.StatusOK (JMessages (select_conversation a b (db s))).
Proof. done. Qed.

(** X5: a message that was sent is read back: after a send request that
    succeeds, a read of the conversation by either participant, in either
    argument order, that the store serves without a failure answers what
    it answered before followed by the new message with its assigned id
    and both counters at 0, and a read is answered with 200 only with
    that list; reads of every other conversation answer what they
    answered before, whether the store fails or not. *)
Theorem sent_message_is_read_back (msg : Message) (s : Server) :
  let s' := fst (sendMessageHandler false (BindOk msg) s) in
  let stored := mkMessage (fmt_d (next_id (db s))) (Sender msg) (Receiver msg)
                          (Content msg) 0 0 in
  let answer := mkResponse Http.StatusOK
      (JMessages (select_conversation (Sender msg) (Receiver msg) (db s) ++ [stored])) in
  snd (getMessagesHandler rows_ok (Sender msg) (Receiver msg) s') = answer ∧
  (∀ f, status (snd (getMessagesHandler f (Sender msg) (Receiver msg) s')) = Http.StatusOK →
        snd (getMessagesHandler f (Sender msg) (Receiver msg) s') = answer) ∧
  (∀ f, snd (getMessagesHandler f (Receiver msg) (Sender msg) s') =
        snd (getMessagesHandler f (Sender msg) (Receiver msg) s')) ∧
  (∀ f a b, ¬ ((a = Sender msg ∧ b = Receiver msg) ∨ (a = Receiver msg ∧ b = Sender msg)) →
            snd (getMessagesHandler f a b s') = snd (getMessagesHandler f a b s)).
Proof.
  intros s' stored answer.
  assert (Hdb : messages (db s') =
                messages (db s) ++ [mkMessageRow (next_id (db s)) (Sender msg) (Receiver msg)
                                                 (Content msg) 0 0]).
  { subst s'. unfold sendMessageHandler. simpl. by rewrite handleMessages_db. }
  assert (Hsel : select_conversation (Sender msg) (Receiver msg) (db s') =
                 select_conversation (Sender msg) (Receiver msg) (db s) ++ [stored]).
  { unfold select_conversation. rewrite Hdb, filter_app, fmap_app.
    rewrite filter_cons_True by (left; done). done. }
  split_and!.
  - subst answer. rewrite <- Hsel. apply getMessagesHandler_ok.
  - intros f Hf. subst answer. rewrite <- Hsel. by apply getMessagesHandler_only.
  - intros f. unfold getMessagesHandler.
    by rewrite (select_conversation_sym (Receiver msg) (Sender msg)).
  - intros f a b Hab. apply getMessagesHandler_rows.
    unfold select_conversation. rewrite Hdb, filter_app.
    rewrite filter_cons_False, filter_nil, app_nil_r; [done|].
    unfold between. simpl. intros [[? ?]|[? ?]]; apply Hab; subst; tauto.
Qed.

(** ** Messages are kept *)

Lemma update_counts_identity du dd M d :
  identity_of <$> messages (update_counts du dd M d) = identity_of <$> messages d ∧
  row_id <$> messages (update_counts du dd M d) = row_id <$> messages d.
Proof.
  unfold update_counts. simpl. rewrite <- !list_fmap_compose.
  split; apply list_fmap_ext; intros i r _; simpl; by case_decide.
Qed.

(** What a request does to the messages table: nothing, an append, or a
    counter update after a write to [user_votes]. *)
Lemma serve_messages (r : Request) (s : Server) :
  db (serve r s) = db s ∨
  (∃ a b c, db (serve r s) = fst (insert_message a b c (db s))) ∨
  (∃ U M du dd tx, vote_write U M (db s) tx ∧ db (serve r s) = update_counts du dd M tx).
Proof.
  destruct r; simpl.
  - unfold sendMessageHandler. destruct request; [|by left].
    destruct insert_fails; [by left|]. simpl. rewrite handleMessages_db.
    right. left. by eexists _, _, _.
  - rewrite getMessagesHandler_server. by left.
  - destruct (castVote_tx f upvote userId messageId s)
      as [[E _]|(up & down & du & dd & tx & Hw & E)]; simpl in E; rewrite E; [by left|].
    rewrite finish_vote_db. destruct (_ || _); [by left|]. right. right. by eexists _, _, _, _, _.
  - destruct (castVote_tx f downvote userId messageId s)
      as [[E _]|(up & down & du & dd & tx & Hw & E)]; simpl in E; rewrite E; [by left|].
    rewrite finish_vote_db. destruct (_ || _); [by left|]. right. right. by eexists _, _, _, _, _.
  - unfold wsHandler. left. by destruct upgrade_fails.
  - unfold wsRead. left. repeat case_match; by rewrite ?handleMessages_db.
  - unfold wsBreak. left. by case_match.
Qed.

Lemma serve_keeps_messages (r : Request) (s : Server) :
  (identity_of <$> messages (db s)) `prefix_of` (identity_of <$> messages (db (serve r s))).
Proof.
  destruct (serve_messages r s) as [->|[(a & b & c & ->)|(U & M & du & dd & tx & Hw & ->)]].
  - done.
  - simpl. rewrite fmap_app. by apply prefix_app_r.
  - destruct (update_counts_identity du dd M tx) as [-> _].
    destruct (vote_write_frame U M _ tx Hw) as (-> & _). done.
Qed.

(** X6: no request deletes a message or changes the id, sender,
    receiver or content of one: the messages of any moment, with these
    four columns, are still there, in the same order and before any newer
    ones, after any further requests. *)
Theorem messages_are_kept (rs rs' : list Request) :
  (identity_of <$> messages (db (run rs)))
    `prefix_of` (identity_of <$> messages (db (run (rs ++ rs')))).
Proof.
  induction rs' as [|r rs' IH] using rev_ind.
  - by rewrite app_nil_r.
  - rewrite app_assoc, run_snoc. etrans; [apply IH|apply serve_keeps_messages].
Qed.

(** ** Ids *)

Lemma StronglySorted_lookup {A : Type} (R : relation A) (l : list A) (i j : nat) (x y : A) :
  StronglySorted R l → l !! i = Some x → l !! j = Some y → (i < j)%nat → R x y.
Proof.
  intros Hs. revert i j. induction Hs as [|a l Hs IH Ha]; intros i j Hi Hj Hij; [done|].
  destruct j as [|j]; [lia|]. simpl in Hj. destruct i as [|i].
  - simpl in Hi. injection Hi as ->.
    rewrite Forall_forall in Ha. by eapply Ha, list_elem_of_lookup_2.
  - simpl in Hi. apply (IH i j); [done..|lia].
Qed.

Lemma StronglySorted_filter {A : Type} (R : relation A) (P : A → Prop)
    `{!∀ x, Decision (P x)} (l : list A) :
  StronglySorted R l → StronglySorted R (filter P l).
Proof.
  induction 1 as [|a l Hs IH Ha]; [constructor|].
  rewrite filter_cons. destruct (decide (P a)); [|done].
  constructor; [done|]. rewrite Forall_forall in *.
  intros x [_ Hx]%list_elem_of_filter. by apply Ha.
Qed.

Lemma serve_ids_ok (r : Request) (s : Server) : ids_ok (db s) → ids_ok (db (serve r s)).
Proof.
  intros [Hsorted Hbelow].
  destruct (serve_messages r s) as [->|[(a & b & c & ->)|(U & M & du & dd & tx & Hw & ->)]].
  - done.
  - split; simpl.
    + apply StronglySorted_app. split_and!; [|done|repeat constructor].
      intros x1 x2 H1 ->%list_elem_of_singleton. by apply Hbelow.
    + intros x [Hx| ->%list_elem_of_singleton]%elem_of_app; simpl; [|lia].
      specialize (Hbelow x Hx). lia.
  - destruct (vote_write_frame U M _ tx Hw) as (Hm & Hn & _).
    unfold update_counts. simpl. rewrite Hm, Hn. split.
    + eapply (StronglySorted_fmap _ id_before id_before); [|done].
      intros x y. unfold id_before. by repeat case_decide.
    + intros x' (x & -> & Hx)%list_elem_of_fmap. specialize (Hbelow x Hx).
      by case_decide.
Qed.

Lemma run_ids_ok (rs : list Request) : ids_ok (db (run rs)).
Proof.
  induction rs as [|r rs IH] using rev_ind.
  - split; [constructor|]. by intros r ?%elem_of_nil.
  - rewrite run_snoc. by apply serve_ids_ok.
Qed.

Lemma ids_ok_select (d : DB) (r : MessageRow) :
  ids_ok d → r ∈ messages d → filter (has_id (fmt_d (row_id r))) (messages d) = [r].
Proof.
  intros [Hs _] Hr. apply list_elem_of_split in Hr as (l1 & l2 & E). rewrite E in *.
  apply StronglySorted_app in Hs as (H12 & _ & H2).
  apply StronglySorted_cons in H2 as [H2 _]. rewrite Forall_forall in H2.
  rewrite filter_app, filter_cons_True by (by apply has_id_fmt_d).
  rewrite (proj2 (filter_none_all (has_id (fmt_d (row_id r))) l1)),
          (proj2 (filter_none_all (has_id (fmt_d (row_id r))) l2)); [done|..].
  - intros x Hx Hid. apply has_id_fmt_d in Hid. specialize (H2 x Hx).
    unfold id_before in H2. lia.
  - intros x Hx Hid. apply has_id_fmt_d in Hid.
    specialize (H12 x r Hx (list_elem_of_here _ _)). unfold id_before in H12. lia.
Qed.

(** X7: ids grow with the order in which the messages were sent and are
    never reused: of two stored messages the one sent later has the larger
    id, every id is below the next one the store will hand out, and
    looking a stored message up by the text of its id finds that message
    and no other. *)
Theorem ids_grow_and_identify (rs : list Request) (i j : nat) (ri rj : MessageRow) :
  let d := db (run rs) in
  messages d !! i = Some ri → messages d !! j = Some rj → (i < j)%nat →
  row_id ri < row_id rj ∧ row_id rj < next_id d ∧
  select_message (fmt_d (row_id ri)) d = [to_message ri] ∧
  select_message (fmt_d (row_id rj)) d = [to_message rj].
Proof.
  intros d Hi Hj Hij. pose proof (run_ids_ok rs) as Hok. fold d in Hok.
  pose proof (list_elem_of_lookup_2 _ _ _ Hi) as Hri.
  pose proof (list_elem_of_lookup_2 _ _ _ Hj) as Hrj.
  split_and!.
  - by apply (StronglySorted_lookup id_before (messages d) i j ri rj (proj1 Hok)).
  - by apply Hok.
  - unfold select_message. by rewrite ids_ok_select.
  - unfold select_message. by rewrite ids_ok_select.
Qed.

(** X8: a read of the conversation of two users that the store serves
    without a failure answers 200 with the same list whichever of the two
    is named first, and a read is answered with 200 only with that list
    (a failing query, scan or row iteration is answered with 500); the
    list is in ascending id (send) order; each message in it is between
    these two users, carries as counters the numbers of upvote and
    downvote records now stored for it, and is the message a lookup by
    its id finds. *)
Theorem conversation_read (rs : list Request) (a b : string) :
  let s := run rs in
  ∃ l, snd (getMessagesHandler rows_ok a b s) = mkResponse Http.StatusOK (JMessages l) ∧
       snd (getMessagesHandler rows_ok b a s) = mkResponse Http.StatusOK (JMessages l) ∧
       (∀ f, snd (getMessagesHandler f a b s) = mkResponse Http.StatusOK (JMessages l) ∨
             status (snd (getMessagesHandler f a b s)) = Http.StatusInternalServerError) ∧
       StronglySorted older l ∧
       ∀ m, m ∈ l →
            ((Sender m = a ∧ Receiver m = b) ∨ (Sender m = b ∧ Receiver m = a)) ∧
            Upvotes m = count_votes "upvote" (ID m) (user_votes (db s)) ∧
            Downvotes m = count_votes "downvote" (ID m) (user_votes (db s)) ∧
            select_message (ID m) (db s) = [m].
Proof.
  intros s. exists (select_conversation a b (db s)).
  pose proof (run_ids_ok rs) as Hids. pose proof (run_store_ok rs) as Hok.
  fold s in Hids, Hok.
  split; [done|]. split; [unfold getMessagesHandler; simpl; by rewrite select_conversation_sym|].
  split; [intros f; unfold getMessagesHandler; repeat case_match; by auto|].
  split.
  - unfold select_conversation.
    apply (StronglySorted_fmap _ id_before older).
    + intros x y Hxy. by exists (row_id x), (row_id y).
    + apply StronglySorted_filter, Hids.
  - intros m (r & -> & [Hb Hr]%list_elem_of_filter)%list_elem_of_fmap.
    destruct (ok_tally _ Hok r Hr) as [Hu Hd].
    split_and!; [done|done|done|]. simpl.
    unfold select_message. by rewrite ids_ok_select.
Qed.

(** ** The registry and the connections over time *)

Lemma hub_inv_ext (s1 s2 : Server) :
  clients s2 = clients s1 → conns s2 = conns s1 → hub_inv s1 → hub_inv s2.
Proof.
  unfold hub_inv, hub_ok, hub_live, sent_ok. intros -> ->. done.
Qed.

(** One connection is rewritten, with the same user and flags. *)
Lemma hub_inv_touch (s : Server) (c : nat) (w0 w' : WsConn) :
  hub_inv s → conns s !! c = Some w0 →
  ws_user w' = ws_user w0 → ws_closed w' = ws_closed w0 → ws_done w' = ws_done w0 →
  (∀ m, m ∈ ws_sent w' → m ∈ ws_sent w0 ∨ Sender m = ws_user w0 ∨ Receiver m = ws_user w0) →
  hub_inv (mkServer (db s) (rdb s) (clients s) (<[c := w']> (conns s))).
Proof.
  intros (Hok & Hlive & Hsent) Hc Hu Hcl Hd Hs.
  pose proof (lookup_lt_Some _ _ _ Hc) as Hlt.
  split_and!.
  - intros u cl Hcle. simpl in *. destruct (Hok u cl Hcle) as (E & w & Hw & Eu).
    split; [done|]. destruct (decide (Conn cl = c)) as [e|n]; [rewrite e in *|].
    + exists w'. rewrite list_lookup_insert_eq by done. split; [done|]. congruence.
    + exists w. by rewrite list_lookup_insert_ne.
  - intros u cl Hcle. simpl in *. destruct (Hlive u cl Hcle) as (w & Hw & Hwc & Hwd).
    destruct (decide (Conn cl = c)) as [e|n]; [rewrite e in *|].
    + exists w'. rewrite list_lookup_insert_eq by done. split; [done|]. split; congruence.
    + exists w. by rewrite list_lookup_insert_ne.
  - intros k w m. simpl. destruct (decide (k = c)) as [->|n].
    + rewrite list_lookup_insert_eq by done. intros [= <-] Hm. rewrite Hu.
      destruct (Hs m Hm) as [Hm0|Hp]; [by eapply Hsent|done].
    + rewrite list_lookup_insert_ne by done. apply Hsent.
Qed.

(** The user of one connection is deregistered and the connection is
    rewritten with what it was sent left alone. *)
Lemma hub_inv_drop (s : Server) (c : nat) (w0 w' : WsConn) :
  hub_inv s → conns s !! c = Some w0 →
  ws_user w' = ws_user w0 → ws_sent w' = ws_sent w0 →
  hub_inv (mkServer (db s) (rdb s) (delete (ws_user w0) (clients s)) (<[c := w']> (conns s))).
Proof.
  intros (Hok & Hlive & Hsent) Hc Hu Hs.
  pose proof (lookup_lt_Some _ _ _ Hc) as Hlt.
  assert (Hother : ∀ u cl, delete (ws_user w0) (clients s) !! u = Some cl →
                           clients s !! u = Some cl ∧ Conn cl ≠ c).
  { intros u cl [Hne Hcle]%lookup_delete_Some. split; [done|].
    destruct (Hok u cl Hcle) as (_ & w & Hw & Eu). intros e. rewrite e in Hw. congruence. }
  split_and!.
  - intros u cl Hcle. simpl in *. destruct (Hother u cl Hcle) as [Hcl0 Hne].
    destruct (Hok u cl Hcl0) as (E & w & Hw & Eu).
    split; [done|]. exists w. by rewrite list_lookup_insert_ne.
  - intros u cl Hcle. simpl in *. destruct (Hother u cl Hcle) as [Hcl0 Hne].
    destruct (Hlive u cl Hcl0) as (w & Hw & Hwc & Hwd).
    exists w. by rewrite list_lookup_insert_ne.
  - intros k w m. simpl. destruct (decide (k = c)) as [->|n].
    + rewrite list_lookup_insert_eq by done. intros [= <-]. rewrite Hu, Hs. by eapply Hsent.
    + rewrite list_lookup_insert_ne by done. apply Hsent.
Qed.

Lemma sendMessageToUser_hub_inv u msg s :
  u = Sender msg ∨ u = Receiver msg → hub_inv s → hub_inv (sendMessageToUser u msg s).
Proof.
  intros Hu Hinv. unfold sendMessageToUser.
  destruct (clients s !! u) as [cl|] eqn:Ecl; [|done].
  destruct (proj1 Hinv u cl Ecl) as (_ & w0 & Hw0 & Eu0).
  unfold WriteJSON, Close. rewrite Hw0.
  destruct (ws_closed w0 || ws_broken w0).
  - rewrite <- Eu0. by apply hub_inv_drop.
  - apply hub_inv_touch with (w0 := w0); try done. simpl.
    intros m [Hm| ->%list_elem_of_singleton]%elem_of_app; [by left|right].
    rewrite Eu0. destruct Hu; subst; tauto.
Qed.

Lemma handleMessages_hub_inv msg s : hub_inv s → hub_inv (handleMessages msg s).
Proof.
  intros H. unfold handleMessages.
  apply sendMessageToUser_hub_inv; [by right|].
  apply sendMessageToUser_hub_inv; [by left|done].
Qed.

Lemma register_hub_inv u s : hub_inv s → hub_inv (register u s).
Proof.
  intros (Hok & Hlive & Hsent). unfold register, wsHandler. simpl. split_and!.
  - by apply (wsHandler_hub_ok false u s).
  - intros v cl. simpl. destruct (decide (u = v)) as [->|n].
    + rewrite lookup_insert_eq. intros [= <-]. simpl.
      eexists. split; [by apply list_lookup_middle|done].
    + rewrite lookup_insert_ne by done. intros Hv.
      destruct (Hlive v cl Hv) as (w & Hw & Hf). exists w. split; [|done].
      by apply lookup_app_l_Some.
  - intros c w m. simpl. intros [Hc|[_ Hc]]%lookup_app_Some; [by eapply Hsent|].
    destruct (c - length (conns s))%nat; [|done]. injection Hc as <-.
    by intros ?%elem_of_nil.
Qed.

Lemma wsRead_error_hub_inv c s : hub_inv s → hub_inv (wsRead c None s).
Proof.
  intros H. unfold wsRead. destruct (conns s !! c) as [w|] eqn:E; [|done].
  destruct (ws_done w); [done|].
  replace (if ws_closed w || ws_broken w then None else None) with (@None Message)
    by by destruct (_ || _).
  by apply hub_inv_drop.
Qed.

Lemma wsBreak_hub_inv c s : hub_inv s → hub_inv (wsBreak c s).
Proof.
  intros H. unfold wsBreak. destruct (conns s !! c) as [w|] eqn:E; [|done].
  apply hub_inv_touch with (w0 := w); try done. simpl. by left.
Qed.

Ltac as_before :=
  match goal with |- ∃ s0, clients _ = clients s0 ∧ _ =>
    match goal with s : Server |- _ => exists s; split_and!; [done..|by left] end
  end.

(** The registry and the connections after a request are those after one
    of four events: a dispatch, a registration, a failed read, a broken
    transport; or they are as before. *)
Lemma serve_hub_cases (r : Request) (s : Server) :
  ∃ s0, clients (serve r s) = clients s0 ∧ conns (serve r s) = conns s0 ∧
        (s0 = s ∨ (∃ m, s0 = handleMessages m s) ∨ (∃ u, s0 = register u s) ∨
         (∃ c, s0 = wsRead c None s) ∨ (∃ c, s0 = wsBreak c s)).
Proof.
  destruct r; simpl.
  - unfold sendMessageHandler. destruct request; [|as_before].
    destruct insert_fails; [as_before|]. simpl.
    eexists (handleMessages _ s). split_and!; [..|right; left; by eexists].
    all: by apply handleMessages_hub.
  - rewrite getMessagesHandler_server. as_before.
  - destruct (castVote_tx f upvote userId messageId s)
      as [[E _]|(up & down & du & dd & tx & _ & E)]; simpl in E; rewrite E;
      [as_before|].
    unfold finish_vote. destruct (Exec _ _); [|as_before].
    destruct (commit_fails f); [as_before|]. simpl.
    destruct (QueryRow _ _) as [m| |]; [|as_before..].
    exists (handleMessages m s). split_and!; [..|right; left; by eexists].
    all: by apply handleMessages_hub.
  - destruct (castVote_tx f downvote userId messageId s)
      as [[E _]|(up & down & du & dd & tx & _ & E)]; simpl in E; rewrite E;
      [as_before|].
    unfold finish_vote. destruct (Exec _ _); [|as_before].
    destruct (commit_fails f); [as_before|]. simpl.
    destruct (QueryRow _ _) as [m| |]; [|as_before..].
    exists (handleMessages m s). split_and!; [..|right; left; by eexists].
    all: by apply handleMessages_hub.
  - unfold wsHandler. destruct upgrade_fails; [as_before|].
    exists (register userID s). split_and!; [done..|]. right. right. left. by eexists.
  - destruct (conns s !! conn) as [w|] eqn:Ec.
    + destruct (ws_done w) eqn:Ed.
      { unfold wsRead. rewrite Ec, Ed. as_before. }
      destruct (ws_closed w || ws_broken w) eqn:Ef.
      * exists (wsRead conn None s).
        split_and!; [unfold wsRead; by rewrite Ec, Ed, Ef..|]. do 3 right. left. by eexists.
      * destruct read as [m|].
        -- exists (handleMessages m s).
           split_and!; [unfold wsRead; by rewrite Ec, Ed, Ef..|]. right. left. by eexists.
        -- exists (wsRead conn None s). split_and!; [done..|]. do 3 right. left. by eexists.
    + unfold wsRead. rewrite Ec. as_before.
  - exists (wsBreak conn s). split_and!; [done..|]. do 4 right. by eexists.
Qed.

Lemma serve_hub_inv (r : Request) (s : Server) : hub_inv s → hub_inv (serve r s).
Proof.
  intros H. destruct (serve_hub_cases r s) as (s0 & Hcl & Hco & Hs0).
  apply (hub_inv_ext s0); [done..|].
  destruct Hs0 as [->|[[m ->]|[[u ->]|[[c ->]|[c ->]]]]].
  - done.
  - by apply handleMessages_hub_inv.
  - by apply register_hub_inv.
  - by apply wsRead_error_hub_inv.
  - by apply wsBreak_hub_inv.
Qed.

Lemma run_hub_inv (rs : list Request) : hub_inv (run rs).
Proof.
  induction rs as [|r rs IH] using rev_ind.
  - split_and!.
    + apply (run_hub_ok []).
    + intros u cl H. simpl in H. by rewrite lookup_empty in H.
    + intros c w m H. simpl in H. by rewrite lookup_nil in H.
  - rewrite run_snoc. by apply serve_hub_inv.
Qed.

(** X9: whatever was pushed on a connection names the user that
    connection was opened for as its sender or its receiver: no request
    makes the server push a message to a connection of a third user. *)
Theorem pushes_stay_between_participants (rs : list Request) (c : nat) (w : WsConn)
    (msg : Message) :
  conns (run rs) !! c = Some w → msg ∈ ws_sent w →
  Sender msg = ws_user w ∨ Receiver msg = ws_user w.
Proof. intros Hc Hm. by apply (proj2 (proj2 (run_hub_inv rs)) c w msg). Qed.

(** X10: an entry of the registry always belongs to the user it is filed
    under and points to a connection opened for that user that is neither
    closed nor abandoned by its handler; so a push to a registered user
    fails exactly when the transport of that connection is broken. *)
Theorem registry_holds_live_connections (rs : list Request) (u : string) (cl : Client) :
  clients (run rs) !! u = Some cl →
  UserID cl = u ∧
  ∃ w, conns (run rs) !! Conn cl = Some w ∧ ws_user w = u ∧
       ws_closed w = false ∧ ws_done w = false ∧
       writable (run rs) (Conn cl) = negb (ws_broken w).
Proof.
  intros Hcl. destruct (run_hub_inv rs) as (Hok & Hlive & _).
  destruct (Hok u cl Hcl) as (E & w & Hw & Eu).
  destruct (Hlive u cl Hcl) as (w' & Hw' & Hc & Hd).
  split; [done|]. exists w. rewrite Hw in Hw'. injection Hw' as <-.
  split_and!; try done. unfold writable. by rewrite Hw, Hc.
Qed.

(** ** Connections only grow *)

Lemma conn_grows_refl w : conn_grows w w.
Proof. by split_and!. Qed.

Lemma conn_grows_trans w1 w2 w3 : conn_grows w1 w2 → conn_grows w2 w3 → conn_grows w1 w3.
Proof.
  intros (U1 & P1 & C1 & D1 & B1) (U2 & P2 & C2 & D2 & B2). split_and!.
  - congruence.
  - by etrans.
  - intros H. destruct (C1 H) as [H1 E1]. destruct (C2 H1) as [H2 E2].
    split; [done|congruence].
  - auto.
  - auto.
Qed.

Lemma conns_grow_refl cs : conns_grow cs cs.
Proof. intros c w H. exists w. split; [done|apply conn_grows_refl]. Qed.

Lemma conns_grow_trans cs1 cs2 cs3 :
  conns_grow cs1 cs2 → conns_grow cs2 cs3 → conns_grow cs1 cs3.
Proof.
  intros H12 H23 c w H. destruct (H12 c w H) as (w2 & H2 & G2).
  destruct (H23 c w2 H2) as (w3 & H3 & G3). exists w3. split; [done|].
  by eapply conn_grows_trans.
Qed.

Lemma conns_grow_insert cs c w0 w' :
  cs !! c = Some w0 → conn_grows w0 w' → conns_grow cs (<[c := w']> cs).
Proof.
  intros Hc Hg k w Hk. destruct (decide (k = c)) as [->|n].
  - exists w'. rewrite list_lookup_insert_eq by (by eapply lookup_lt_Some).
    split; [done|]. congruence.
  - exists w. rewrite list_lookup_insert_ne by done. split; [done|apply conn_grows_refl].
Qed.

Lemma sendMessageToUser_grows u msg s :
  conns_grow (conns s) (conns (sendMessageToUser u msg s)).
Proof.
  unfold sendMessageToUser. destruct (clients s !! u) as [cl|]; [|apply conns_grow_refl].
  unfold WriteJSON, Close. destruct (conns s !! Conn cl) as [w0|] eqn:Hw0; simpl;
    [|apply conns_grow_refl].
  destruct (ws_closed w0 || ws_broken w0) eqn:Ef; simpl.
  - eapply conns_grow_insert; [done|]. by split_and!.
  - eapply conns_grow_insert; [done|]. apply orb_false_iff in Ef as [Ec Eb].
    split_and!; simpl; try done; [by apply prefix_app_r|congruence].
Qed.

Lemma handleMessages_grows msg s : conns_grow (conns s) (conns (handleMessages msg s)).
Proof.
  unfold handleMessages.
  eapply conns_grow_trans; apply sendMessageToUser_grows.
Qed.

Lemma serve_grows (r : Request) (s : Server) : conns_grow (conns s) (conns (serve r s)).
Proof.
  destruct (serve_hub_cases r s) as (s0 & _ & -> & Hs0).
  destruct Hs0 as [->|[[m ->]|[[u ->]|[[c ->]|[c ->]]]]].
  - apply conns_grow_refl.
  - apply handleMessages_grows.
  - intros c w Hc. exists w. split; [|apply conn_grows_refl].
    unfold register, wsHandler. simpl. by apply lookup_app_l_Some.
  - unfold wsRead. destruct (conns s !! c) as [w|] eqn:E; [|apply conns_grow_refl].
    destruct (ws_done w); [apply conns_grow_refl|].
    replace (if ws_closed w || ws_broken w then None else None) with (@None Message)
      by by destruct (_ || _).
    simpl. eapply conns_grow_insert; [done|]. by split_and!.
  - unfold wsBreak. destruct (conns s !! c) as [w|] eqn:E; [|apply conns_grow_refl].
    simpl. eapply conns_grow_insert; [done|]. by split_and!.
Qed.

(** X11: a connection, once opened, is never removed or given to another
    user; what was pushed on it stays, in order, ahead of anything pushed
    later; a closed connection stays closed and is pushed nothing more;
    a handler that returned and a transport that broke stay so. *)
Theorem connections_only_grow (rs rs' : list Request) (c : nat) (w : WsConn) :
  conns (run rs) !! c = Some w →
  ∃ w', conns (run (rs ++ rs')) !! c = Some w' ∧
        ws_user w' = ws_user w ∧
        ws_sent w `prefix_of` ws_sent w' ∧
        (ws_closed w = true → ws_closed w' = true ∧ ws_sent w' = ws_sent w) ∧
        (ws_done w = true → ws_done w' = true) ∧
        (ws_broken w = true → ws_broken w' = true).
Proof.
  revert c w. change (conns_grow (conns (run rs)) (conns (run (rs ++ rs')))).
  induction rs' as [|r rs' IH] using rev_ind.
  - rewrite app_nil_r. apply conns_grow_refl.
  - rewrite app_assoc, run_snoc. eapply conns_grow_trans; [apply IH|apply serve_grows].
Qed.

(** ** A failed read on a replaced connection *)

Lemma sendMessageToUser_unregistered_conn v msg s u k w :
  hub_ok s → clients s !! u = None → conns s !! k = Some w → ws_user w = u →
  clients (sendMessageToUser v msg s) !! u = None ∧
  conns (sendMessageToUser v msg s) !! k = Some w.
Proof.
  intros Hok Hu Hk Hw. destruct (decide (u = v)) as [<-|n].
  - by rewrite sendMessageToUser_unregistered.
  - destruct (sendMessageToUser_bystander v msg s u Hok n) as [Hc Hco].
    split; [by rewrite Hc|by apply Hco].
Qed.

Lemma handleMessages_unregistered_conn msg s u k w :
  hub_ok s → clients s !! u = None → conns s !! k = Some w → ws_user w = u →
  clients (handleMessages msg s) !! u = None ∧
  conns (handleMessages msg s) !! k = Some w.
Proof.
  intros Hok Hu Hk Hw. unfold handleMessages.
  destruct (sendMessageToUser_unregistered_conn (Sender msg) msg s u k w Hok Hu Hk Hw)
    as [Hu1 Hk1].
  apply sendMessageToUser_unregistered_conn; try done.
  by apply sendMessageToUser_hub_ok.
Qed.

(** X12: when a user registers a second connection and the read loop of
    the first one then fails, the user is left without a registry entry
    although the second connection is open and would take a push; from
    then on a dispatched message, also one naming that user, is not
    pushed on it. *)
Theorem failed_read_on_old_connection (rs : list Request) (u : string) (msg : Message) :
  let s := run rs in
  let old := length (conns s) in
  let new := S old in
  let s2 := register u (register u s) in
  let s3 := wsRead old None s2 in
  clients s2 !! u = Some (mkClient u new) ∧
  clients s3 !! u = None ∧
  conns s3 !! new = Some (mkWsConn u false false false []) ∧
  writable s3 new = true ∧
  clients (handleMessages msg s3) !! u = None ∧
  conns (handleMessages msg s3) !! new = Some (mkWsConn u false false false []).
Proof.
  intros s old new s2 s3.
  assert (Hok3 : hub_ok s3).
  { apply wsRead_hub_ok. do 2 apply (wsHandler_hub_ok false). apply run_hub_ok. }
  assert (Hold : conns s2 !! old = Some (mkWsConn u false false false [])).
  { unfold s2, register, wsHandler. simpl.
    apply lookup_app_l_Some. by apply list_lookup_middle. }
  assert (Hnew : conns s2 !! new = Some (mkWsConn u false false false [])).
  { unfold s2, register, wsHandler. simpl. apply list_lookup_middle.
    rewrite length_app. simpl. unfold new, old. lia. }
  assert (Hcl2 : clients s2 !! u = Some (mkClient u new)).
  { unfold s2, register, wsHandler. simpl. rewrite lookup_insert_eq.
    do 2 f_equal. rewrite length_app. simpl. unfold new, old. lia. }
  assert (Hcl3 : clients s3 !! u = None).
  { unfold s3, wsRead. rewrite Hold. simpl. apply lookup_delete_eq. }
  assert (Hnew3 : conns s3 !! new = Some (mkWsConn u false false false [])).
  { unfold s3, wsRead. rewrite Hold. simpl.
    rewrite list_lookup_insert_ne by (unfold new; lia). done. }
  split_and!; try done.
  - unfold writable. by rewrite Hnew3.
  - by apply (handleMessages_unregistered_conn msg s3 u new _ Hok3 Hcl3 Hnew3).
  - by apply (handleMessages_unregistered_conn msg s3 u new _ Hok3 Hcl3 Hnew3).
Qed.

(** ** The cache after a vote *)

Lemma int_wrap_small (z : Z) : - 2 ^ 63 ≤ z < 2 ^ 63 → int_wrap z = z.
Proof. intros H. unfold int_wrap. rewrite Z.mod_small; lia. Qed.

Lemma HSet_lookup key field v cache :
  ∃ entry, HSet false key field v cache !! key = Some entry ∧
           entry !! field = Some v ∧
           ∀ field', field' ≠ field →
                     entry !! field' = default ∅ (cache !! key) !! field'.
Proof.
  unfold HSet. eexists. rewrite lookup_insert_eq. split; [done|].
  split; [by rewrite lookup_insert_eq|]. intros field' Hne. by rewrite lookup_insert_ne.
Qed.

Lemma tally_of_message d M m :
  message_at d M = Some m → tally d M = Some (Upvotes m, Downvotes m).
Proof.
  unfold message_at, tally. rewrite select_counts_message.
  by destruct (select_message M d); [|intros [= ->]].
Qed.

Lemma message_row d M m :
  message_at d M = Some m → ∃ r, r ∈ messages d ∧ has_id M r ∧ to_message r = m.
Proof.
  unfold message_at, select_message. intros H.
  destruct (filter (has_id M) (messages d)) as [|r l] eqn:E; [done|].
  injection H as <-. exists r.
  assert (r ∈ filter (has_id M) (messages d)) as [? ?]%list_elem_of_filter
    by (rewrite E; left).
  done.
Qed.

(** X13: after a vote that commits with both cache writes succeeding,
    the cache entry of the message holds, under "upvotes" and "downvotes",
    the two counters the store now has for it, each taken as a 64-bit
    integer: the same numbers whenever they fit, and they are never
    negative. *)
Theorem cache_agrees_after_vote (f : VoteFaults) (t : VoteType) (U M : string)
    (s : Server) (msg : Message) :
  store_up f →
  hset_upvotes_fails f = false → hset_downvotes_fails f = false →
  store_ok (db s) →
  message_at (db s) M = Some msg →
  let s' := fst (castVote f t U M s) in
  ∃ up down entry,
    tally (db s') M = Some (up, down) ∧
    rdb s' !! cache_key M = Some entry ∧
    entry !! "upvotes" = Some (int_wrap up) ∧
    entry !! "downvotes" = Some (int_wrap down) ∧
    0 ≤ up ∧ 0 ≤ down ∧
    (up < 2 ^ 63 → int_wrap up = up) ∧ (down < 2 ^ 63 → int_wrap down = down).
Proof.
  intros Hf Hup Hdown Hok Hmsg s'.
  destruct (castVote_step f t U M s msg Hf Hok Hmsg) as (Hr & _ & Hm'). fold s' in Hm'.
  pose proof (castVote_store_ok f t U M s Hok) as Hok'. fold s' in Hok'.
  set (du := fst (snd (spec_toggle (vote_state (db s) U M) t))) in *.
  set (dd := snd (snd (spec_toggle (vote_state (db s) U M) t))) in *.
  exists (Upvotes msg + du), (Downvotes msg + dd).
  assert (Hrdb : rdb s' =
                 HSet false (cache_key M) "downvotes" (int_add (Downvotes msg) dd)
                   (HSet false (cache_key M) "upvotes" (int_add (Upvotes msg) du) (rdb s))).
  { subst s'.
    destruct (castVote_cases f t U M s) as [(_ & N1 & _)|(up & down & tx & Ht & E & Fu)];
      [done|].
    rewrite (tally_of_message _ _ _ Hmsg) in Ht. injection Ht as <- <-.
    fold du dd in E. rewrite E.
    destruct (finish_vote_rdb f M (Upvotes msg) (Downvotes msg) du dd tx s Fu) as [-> _].
    by rewrite Hup, Hdown. }
  destruct (HSet_lookup (cache_key M) "downvotes" (int_add (Downvotes msg) dd)
              (HSet false (cache_key M) "upvotes" (int_add (Upvotes msg) du) (rdb s)))
    as (entry & He & Hd & Hother).
  destruct (HSet_lookup (cache_key M) "upvotes" (int_add (Upvotes msg) du) (rdb s))
    as (entry0 & He0 & Hu0 & _).
  exists entry. rewrite Hrdb.
  destruct (message_row _ _ _ Hm') as (r & Hr' & Hid & Hto).
  destruct (ok_tally _ Hok' r Hr') as [Hcu Hcd].
  assert (Hru : row_upvotes r = Upvotes msg + du) by (by injection Hto).
  assert (Hrd : row_downvotes r = Downvotes msg + dd) by (by injection Hto).
  pose proof (count_votes_nonneg "upvote" (fmt_d (row_id r)) (user_votes (db s'))).
  pose proof (count_votes_nonneg "downvote" (fmt_d (row_id r)) (user_votes (db s'))).
  split_and!.
  - by rewrite (tally_of_message _ _ _ Hm').
  - done.
  - rewrite Hother by done. rewrite He0. simpl. done.
  - done.
  - lia.
  - lia.
  - intros Hlt. apply int_wrap_small. lia.
  - intros Hlt. apply int_wrap_small. lia.
Qed.

Lemma serve_keeps_ids (r : Request) (s : Server) (x : MessageRow) :
  x ∈ messages (db s) → ∃ x', x' ∈ messages (db (serve r s)) ∧ row_id x' = row_id x.
Proof.
  intros Hx.
  assert (identity_of x ∈ identity_of <$> messages (db (serve r s))) as Hin.
  { destruct (serve_keeps_messages r s) as [k ->].
    apply elem_of_app. left. by apply list_elem_of_fmap_2. }
  apply list_elem_of_fmap in Hin as (x' & E & Hx'). exists x'. split; [done|].
  unfold identity_of in E. congruence.
Qed.

Lemma serve_rdb_cases (r : Request) (s : Server) :
  rdb (serve r s) = rdb s ∨
  ∃ M b1 b2 v1 v2,
    is_Some (tally (db s) M) ∧
    rdb (serve r s) =
      HSet b2 (cache_key M) "downvotes" v2 (HSet b1 (cache_key M) "upvotes" v1 (rdb s)).
Proof.
  assert (Hvote : ∀ f t U M,
            rdb (fst (castVote f t U M s)) = rdb s ∨
            ∃ M' b1 b2 v1 v2,
              is_Some (tally (db s) M') ∧
              rdb (fst (castVote f t U M s)) =
                HSet b2 (cache_key M') "downvotes" v2
                  (HSet b1 (cache_key M') "upvotes" v1 (rdb s))).
  { intros f t U M.
    destruct (castVote_cases f t U M s) as [(E & _)|(up & down & tx & Ht & E & Fu)];
      [left; by rewrite E|].
    destruct (finish_vote_rdb f M up down
                (fst (snd (spec_toggle (vote_state (db s) U M) t)))
                (snd (snd (spec_toggle (vote_state (db s) U M) t))) tx s Fu) as [Hrdb _].
    rewrite <- E in Hrdb.
    right. exists M. do 4 eexists. split; [by eexists|]. exact Hrdb. }
  destruct r; simpl.
  - left. unfold sendMessageHandler. destruct request; [|done].
    destruct insert_fails; [done|]. simpl. by rewrite handleMessages_rdb.
  - left. by rewrite getMessagesHandler_server.
  - apply (Hvote f upvote).
  - apply (Hvote f downvote).
  - left. unfold wsHandler. by destruct upgrade_fails.
  - left. unfold wsRead. repeat case_match; by rewrite ?handleMessages_rdb.
  - left. unfold wsBreak. by case_match.
Qed.

Lemma HSet_entries b key field v cache k entry :
  HSet b key field v cache !! k = Some entry →
  cache !! k = Some entry ∨
  (k = key ∧ ∀ field' v', entry !! field' = Some v' →
                          field' = field ∨ default ∅ (cache !! key) !! field' = Some v').
Proof.
  unfold HSet. destruct b; [by left|].
  destruct (decide (key = k)) as [->|n].
  - rewrite lookup_insert_eq. intros [= <-]. right. split; [done|].
    intros field' v'. destruct (decide (field = field')) as [->|n]; [by left|].
    rewrite lookup_insert_ne by done. by right.
  - rewrite lookup_insert_ne by done. by left.
Qed.

Lemma serve_cache_ok (r : Request) (s : Server) : cache_ok s → cache_ok (serve r s).
Proof.
  intros Hc.
  assert (Hkeep : ∀ k, (∃ x m, x ∈ messages (db s) ∧ has_id m x ∧ k = cache_key m) →
                       ∃ x m, x ∈ messages (db (serve r s)) ∧ has_id m x ∧ k = cache_key m).
  { intros k (x & m & Hx & Hid & ->). destruct (serve_keeps_ids r s x Hx) as (x' & Hx' & E).
    exists x', m. unfold has_id in *. by rewrite E. }
  destruct (serve_rdb_cases r s) as [E|(M & b1 & b2 & v1 & v2 & [[up down] Ht] & E)];
    intros k entry; rewrite E.
  - intros Hk. destruct (Hc k entry Hk) as [Hrow Hf]. split; [by apply Hkeep|done].
  - assert (Hrow : ∃ x m, x ∈ messages (db s) ∧ has_id m x ∧ cache_key M = cache_key m).
    { unfold tally in Ht.
      destruct (select_counts M (db s)) as [|c rest] eqn:Es; [done|].
      destruct (message_found M (db s) c rest Es) as (x & Hx & Hid).
      by exists x, M. }
    intros [Hk|[-> Hf2]]%HSet_entries.
    + apply HSet_entries in Hk as [Hk|[-> Hf1]].
      * destruct (Hc k entry Hk) as [Hr Hf]. split; [by apply Hkeep|done].
      * split; [by apply Hkeep|]. intros field v Hv.
        destruct (Hf1 field v Hv) as [->|Hold]; [by left|].
        destruct (rdb s !! cache_key M) as [old|] eqn:Eo; simpl in Hold; [|done].
        by apply (proj2 (Hc _ _ Eo) field v).
    + split; [by apply Hkeep|]. intros field v Hv.
      destruct (Hf2 field v Hv) as [->|Hold]; [by right|].
      destruct (HSet b1 (cache_key M) "upvotes" v1 (rdb s) !! cache_key M) as [mid|] eqn:Em;
        simpl in Hold; [|done].
      apply HSet_entries in Em as [Em|[_ Hf1]].
      * by apply (proj2 (Hc _ _ Em) field v).
      * destruct (Hf1 field v Hold) as [->|Hold']; [by left|].
        destruct (rdb s !! cache_key M) as [old|] eqn:Eo; simpl in Hold'; [|done].
        by apply (proj2 (Hc _ _ Eo) field v).
Qed.

Lemma run_cache_ok (rs : list Request) : cache_ok (run rs).
Proof.
  induction rs as [|r rs IH] using rev_ind.
  - intros k entry H. simpl in H. by rewrite lookup_empty in H.
  - rewrite run_snoc. by apply serve_cache_ok.
Qed.

(** A vote request writes no cache entry but the one filed under the id
    text it was given. *)
Lemma castVote_rdb_other (f : VoteFaults) (t : VoteType) (U M : string) (s : Server)
    (k : string) :
  k ≠ cache_key M → rdb (fst (castVote f t U M s)) !! k = rdb s !! k.
Proof.
  intros Hk.
  destruct (castVote_cases f t U M s) as [(E & _)|(up & down & tx & Ht & E & Fu)];
    [by rewrite E|].
  destruct (finish_vote_rdb f M up down
              (fst (snd (spec_toggle (vote_state (db s) U M) t)))
              (snd (snd (spec_toggle (vote_state (db s) U M) t))) tx s Fu) as [Hrdb _].
  rewrite <- E in Hrdb. rewrite Hrdb. unfold HSet.
  repeat case_match; by rewrite ?lookup_insert_ne.
Qed.

(** X14: the cache never holds anything but tallies of stored messages,
    written by vote requests.  After any requests every key in it is
    "message:" followed by an id text that the store reads as the id of a
    stored message (the text of the request, so "message:01" for a vote
    on 01), and an entry has no field other than "upvotes" and
    "downvotes"; a request that is not a vote leaves the whole cache as
    it was, and a vote leaves every entry but the one under its own id
    text as it was. *)
Theorem cache_holds_tallies_of_stored_messages (rs : list Request) :
  let s := run rs in
  (∀ k entry, rdb s !! k = Some entry →
     (∃ r m, r ∈ messages (db s) ∧ read_int m = Some (row_id r) ∧ k = "message:" +:+ m) ∧
     ∀ field v, entry !! field = Some v → field = "upvotes" ∨ field = "downvotes") ∧
  (∀ r, (∀ f U M, r ≠ PostUpvote f U M ∧ r ≠ PostDownvote f U M) →
        rdb (serve r s) = rdb s) ∧
  (∀ f t U M k, k ≠ "message:" +:+ M →
                rdb (fst (castVote f t U M s)) !! k = rdb s !! k).
Proof.
  intros s. split_and!.
  - apply run_cache_ok.
  - intros r Hr. destruct r; simpl.
    + unfold sendMessageHandler. destruct request; [|done].
      destruct insert_fails; [done|]. simpl. by rewrite handleMessages_rdb.
    + by rewrite getMessagesHandler_server.
    + by destruct (Hr f userId messageId) as [? _].
    + by destruct (Hr f userId messageId) as [_ ?].
    + unfold wsHandler. by destruct upgrade_fails.
    + unfold wsRead. repeat case_match; by rewrite ?handleMessages_rdb.
    + unfold wsBreak. by case_match.
  - intros f t U M k. apply castVote_rdb_other.
Qed.

(** ** Accounts *)

Lemma run_accounts_snoc B rs r :
  run_accounts B (rs ++ [r]) = serve_account B r (run_accounts B rs).
Proof. unfold run_accounts. by rewrite foldl_app. Qed.

(** A request leaves the table alone or appends one row: a username that
    was not there, not empty, with the hash of a password of 8 to 20
    bytes. *)
Lemma serve_account_cases (B : Bcrypt) (r : AccountRequest) (users : list UserRow) :
  serve_account B r users = users ∨
  ∃ user pass entropy h,
    serve_account B r users = users ++ [mkUserRow user h] ∧
    user ≠ "" ∧ (8 ≤ String.length pass ≤ 20)%nat ∧
    filter (λ row, username row = user) users = [] ∧
    GenerateFromPassword B entropy pass DefaultCost = Some h.
Proof.
  destruct r as [f entropy [user pass|e]| |]; simpl; try by left.
  case_decide as Hempty; [by left|].
  destruct (_ <? 8)%nat eqn:E8; [by left|].
  destruct (20 <? _)%nat eqn:E20; [by left|]. simpl.
  destruct (count_fails f); [by left|].
  destruct (0 <? _)%nat eqn:Ec; [by left|].
  destruct (GenerateFromPassword B entropy pass DefaultCost) as [h|] eqn:Eh; [|by left].
  destruct (insert_user_fails f); [by left|]. simpl.
  right. exists user, pass, entropy, h.
  apply Nat.ltb_ge in E8, E20, Ec.
  split_and!; try done.
  all: try tauto; try lia.
  apply length_zero_iff_nil. lia.
Qed.

Lemma run_accounts_ok (B : Bcrypt) (rs : list AccountRequest) :
  let users := run_accounts B rs in
  NoDup (username <$> users) ∧
  ∀ row, row ∈ users →
         username row ≠ "" ∧
         ∃ entropy pass, (8 ≤ String.length pass ≤ 20)%nat ∧
                         GenerateFromPassword B entropy pass DefaultCost = Some (password row).
Proof.
  induction rs as [|r rs IH] using rev_ind.
  - split; [apply NoDup_nil_2|]. by intros row ?%elem_of_nil.
  - simpl in *. rewrite run_accounts_snoc.
    destruct (serve_account_cases B r (run_accounts B rs))
      as [->|(user & pass & entropy & h & -> & Hne & Hlen & Hfresh & Hh)]; [done|].
    destruct IH as [Hnd Hrows]. split.
    + rewrite fmap_app. apply NoDup_app. split; [done|]. split; [|apply NoDup_singleton].
      intros u (row & -> & Hrow)%list_elem_of_fmap Hu%list_elem_of_singleton.
      by apply (filter_nil_not_elem_of _ _ row Hfresh).
    + intros row [Hrow| ->%list_elem_of_singleton]%elem_of_app; [by apply Hrows|].
      simpl. split; [done|]. by exists entropy, pass.
Qed.

(** A row is appended only by a signup request, under the username of
    the request and with what bcrypt made of its password. *)
Lemma serve_account_origin (B : Bcrypt) (r : AccountRequest) (users : list UserRow) :
  serve_account B r users = users ∨
  ∃ f entropy user pass h,
    r = PostSignup f entropy (Creds user pass) ∧
    serve_account B r users = users ++ [mkUserRow user h] ∧
    (8 ≤ String.length pass ≤ 20)%nat ∧
    GenerateFromPassword B entropy pass DefaultCost = Some h.
Proof.
  destruct r as [f entropy [user pass|e]| |]; simpl; try by left.
  case_decide as Hempty; [by left|].
  destruct (_ <? 8)%nat eqn:E8; [by left|].
  destruct (20 <? _)%nat eqn:E20; [by left|]. simpl.
  destruct (count_fails f); [by left|].
  destruct (0 <? _)%nat eqn:Ec; [by left|].
  destruct (GenerateFromPassword B entropy pass DefaultCost) as [h|] eqn:Eh; [|by left].
  destruct (insert_user_fails f); [by left|]. simpl.
  right. exists f, entropy, user, pass, h.
  apply Nat.ltb_ge in E8, E20. split_and!; try done; lia.
Qed.

Lemma run_accounts_origin (B : Bcrypt) (rs : list AccountRequest) (row : UserRow) :
  row ∈ run_accounts B rs →
  ∃ f entropy pass,
    PostSignup f entropy (Creds (username row) pass) ∈ rs ∧
    (8 ≤ String.length pass ≤ 20)%nat ∧
    GenerateFromPassword B entropy pass DefaultCost = Some (password row).
Proof.
  induction rs as [|r rs IH] using rev_ind; [by intros ?%elem_of_nil|].
  rewrite run_accounts_snoc.
  assert (Hold : row ∈ run_accounts B rs →
                 ∃ f entropy pass,
                   PostSignup f entropy (Creds (username row) pass) ∈ rs ++ [r] ∧
                   (8 ≤ String.length pass ≤ 20)%nat ∧
                   GenerateFromPassword B entropy pass DefaultCost = Some (password row)).
  { intros Hrow. destruct (IH Hrow) as (f & entropy & pass & Hin & Hlen & Hh).
    exists f, entropy, pass. split; [|done]. apply elem_of_app. by left. }
  destruct (serve_account_origin B r (run_accounts B rs))
    as [->|(f & entropy & user & pass & h & -> & -> & Hlen & Hh)]; [done|].
  intros [Hrow| ->%list_elem_of_singleton]%elem_of_app; [by apply Hold|].
  exists f, entropy, pass. simpl. split; [|done].
  apply elem_of_app. right. by apply list_elem_of_singleton.
Qed.

(** X15: after any sequence of signup, login and listing requests the
    usernames in the users table are pairwise different and none is
    empty, and every row comes from a signup request of the sequence: it
    carries the username of that request, whose password has 8 to 20
    bytes, and stores what bcrypt, at the default cost, made of that
    password. *)
Theorem accounts_are_unique_and_valid (B : Bcrypt) (rs : list AccountRequest) :
  let users := run_accounts B rs in
  NoDup (username <$> users) ∧
  ∀ row, row ∈ users →
         username row ≠ "" ∧
         ∃ f entropy pass,
           PostSignup f entropy (Creds (username row) pass) ∈ rs ∧
           (8 ≤ String.length pass ≤ 20)%nat ∧
           GenerateFromPassword B entropy pass DefaultCost = Some (password row).
Proof.
  intros users. destruct (run_accounts_ok B rs) as [Hnd Hrows]. split; [done|].
  intros row Hrow. split; [by apply Hrows|]. by apply run_accounts_origin.
Qed.




(** X17: a login is answered with success only when the store was read,
    the username belongs to an account created by a signup, and bcrypt
    accepts the password against the hash stored at that signup.  Every
    other login gets one of two answers: 400 for a body that does not
    bind, and otherwise the same 401 whether the username is unknown, the
    password is wrong or the store could not be read. *)
Theorem login_needs_matching_hash (B : Bcrypt) (rs : list AccountRequest)
    (query_fails : bool) (request : Credentials) :
  let users := run_accounts B rs in
  let resp := loginHandler B query_fails request users in
  (resp = mkResponse Http.StatusOK (JText "Login successful") ∧
   query_fails = false ∧
   ∃ user pass row entropy pass0,
     request = Creds user pass ∧ row ∈ users ∧ username row = user ∧
     CompareHashAndPassword B (password row) pass = true ∧
     GenerateFromPassword B entropy pass0 DefaultCost = Some (password row)) ∨
  (resp = mkResponse Http.StatusBadRequest (JError "Invalid request payload") ∧
   ∃ e, request = CredsError e) ∨
  resp = mkResponse StatusUnauthorized (JError "Invalid username or password").
Proof.
  intros users resp. subst resp. unfold loginHandler.
  destruct request as [user pass|e]; [|right; left; eauto].
  unfold QueryRow. destruct query_fails; [by right; right|].
  destruct (filter (λ r, username r = user) users) as [|row l] eqn:E; [by right; right|].
  simpl. destruct (CompareHashAndPassword B (password row) pass) eqn:Ec; [|by right; right].
  left. split; [done|]. split; [done|].
  assert (row ∈ filter (λ r, username r = user) users) as [Hu Hrow]%list_elem_of_filter
    by (rewrite E; left).
  destruct (proj2 (run_accounts_ok B rs) row Hrow) as (_ & entropy & pass0 & _ & Hh).
  by exists user, pass, row, entropy, pass0.
Qed.

(** X18: when the store answers, the listing requested by a user names
    exactly the usernames of the accounts created so far other than the
    requesting name, each once; the requesting name itself is never in
    it. *)
Theorem users_listing (B : Bcrypt) (rs : list AccountRequest) (currentUser : string) :
  let users := run_accounts B rs in
  ∃ l, usersHandler false false false currentUser users
         = mkUsersResponse Http.StatusOK (JUsers l) ∧
       (currentUser ∉ l) ∧ NoDup l ∧
       ∀ u, u ∈ l ↔ u ≠ currentUser ∧ ∃ row, row ∈ users ∧ username row = u.
Proof.
  intros users. eexists. split; [reflexivity|].
  destruct (run_accounts_ok B rs) as [Hnd _]. fold users in Hnd.
  split_and!.
  - intros (row & -> & [Hne _]%list_elem_of_filter)%list_elem_of_fmap. done.
  - eapply sublist_NoDup; [exact Hnd|]. apply fmap_sublist, sublist_filter.
  - intros u. rewrite list_elem_of_fmap. split.
    + intros (row & -> & [Hne Hrow]%list_elem_of_filter). split; [done|]. by exists row.
    + intros (Hne & row & Hrow & <-). exists row. split; [done|].
      by apply list_elem_of_filter.
Qed.

(** ** The chat view *)

Lemma imap_replace {A : Type} (i : nat) (x : A) (l : list A) :
  imap (λ index y, if decide (index = i) then x else y) l = <[i := x]> l.
Proof.
  revert i. induction l as [|a l IH]; intros i; [done|].
  rewrite imap_cons. destruct i as [|i]; simpl.
  - f_equal. rewrite (imap_ext _ (const id)); [by rewrite imap_const, list_fmap_id|].
    done.
  - f_equal. rewrite <- IH. apply imap_ext. intros j y _. simpl.
    destruct (decide (j = i)), (decide (S j = S i)); done || lia.
Qed.

Lemma findIndex_Some id l i :
  findIndex id l = Some i ↔
  ∃ m, l !! i = Some m ∧ ID m = id ∧ ∀ j y, l !! j = Some y → (j < i)%nat → ID y ≠ id.
Proof.
  unfold findIndex. split.
  - intros ([i' m] & Hf & [= ->])%fmap_Some. apply list_find_Some in Hf. by exists m.
  - intros (m & Hi & Hid & Hlt). apply fmap_Some. exists (i, m). split; [|done].
    by apply list_find_Some.
Qed.

Lemma findIndex_None id l : findIndex id l = None ↔ ∀ m, m ∈ l → ID m ≠ id.
Proof.
  unfold findIndex. rewrite fmap_None, list_find_None, Forall_forall. done.
Qed.

(** The update written with list operations. *)
Lemma onmessage_cases a b m prev :
  (onmessage a b m prev = prev ∧
   ¬ ((Sender m = a ∧ Receiver m = b) ∨ (Sender m = b ∧ Receiver m = a))) ∨
  (onmessage a b m prev = prev ++ [m] ∧ ∀ y, y ∈ prev → ID y ≠ ID m) ∨
  (∃ i m0, onmessage a b m prev = <[i := m]> prev ∧ prev !! i = Some m0 ∧ ID m0 = ID m ∧
           ∀ j y, prev !! j = Some y → (j < i)%nat → ID y ≠ ID m).
Proof.
  unfold onmessage. case_decide as Hrel; [|by left]. right.
  destruct (findIndex (ID m) prev) as [i|] eqn:Ef.
  - right. apply findIndex_Some in Ef as (m0 & Hi & Hid & Hlt).
    exists i, m0. by rewrite imap_replace.
  - left. split; [done|]. by apply findIndex_None.
Qed.

(** X19: the view update is idempotent: an event delivered twice in a
    row (as the server does for a message a user sends to themselves)
    leaves the view as after the first delivery. *)
Theorem onmessage_twice (currentUser username : string) (updatedMessage : Message)
    (prevMessages : list Message) :
  onmessage currentUser username updatedMessage
    (onmessage currentUser username updatedMessage prevMessages)
  = onmessage currentUser username updatedMessage prevMessages.
Proof.
  destruct (onmessage_cases currentUser username updatedMessage prevMessages)
    as [[E Hn]|[[E Hnew]|(i & m0 & E & Hi & Hid & Hlt)]]; rewrite E.
  - done.
  - destruct (onmessage_cases currentUser username updatedMessage
                (prevMessages ++ [updatedMessage]))
      as [[E' Hn']|[[E' Hnew']|(j & m1 & E' & Hj & Hjd & Hjlt)]].
    + unfold onmessage in E. by rewrite decide_False in E by done;
        apply (f_equal length) in E; rewrite length_app in E; simpl in E; lia.
    + exfalso. apply (Hnew' updatedMessage); [|done]. apply elem_of_app. right. left.
    + rewrite E'. apply lookup_app_Some in Hj as [Hj|[Hlen Hj]].
      * exfalso. apply (Hnew m1); [by eapply list_elem_of_lookup_2|done].
      * assert (j = length prevMessages) as ->.
        { destruct (j - length prevMessages)%nat eqn:Ej; [lia|]. simpl in Hj.
          by rewrite lookup_nil in Hj. }
        by rewrite insert_app_r_alt, Nat.sub_diag by lia.
  - pose proof (lookup_lt_Some _ _ _ Hi) as Hlen.
    destruct (onmessage_cases currentUser username updatedMessage
                (<[i := updatedMessage]> prevMessages))
      as [[E' Hn']|[[E' Hnew']|(j & m1 & E' & Hj & Hjd & Hjlt)]]; rewrite E'.
    + done.
    + exfalso. apply (Hnew' updatedMessage); [|done].
      apply list_elem_of_lookup. exists i. by rewrite list_lookup_insert_eq.
    + assert (j = i) as ->.
      { destruct (Nat.lt_trichotomy j i) as [Hji|[->|Hij]]; [|done|].
        - exfalso. rewrite list_lookup_insert_ne in Hj by lia.
          by apply (Hlt j m1 Hj Hji).
        - exfalso. apply (Hjlt i updatedMessage); [|done..].
          by rewrite list_lookup_insert_eq. }
      by rewrite list_insert_insert_eq.
Qed.

(** X20: the view update keeps one message per id: from a view whose
    ids are pairwise different it yields one whose ids are pairwise
    different and start with the old ids in the old order; an event of the
    conversation shown is then in the view and is the only message there
    with its id; messages with other ids stay; an event of another
    conversation changes nothing. *)
Theorem onmessage_keeps_one_message_per_id (currentUser username : string)
    (updatedMessage : Message) (prevMessages : list Message) :
  NoDup (ID <$> prevMessages) →
  let new := onmessage currentUser username updatedMessage prevMessages in
  NoDup (ID <$> new) ∧
  (ID <$> prevMessages) `prefix_of` (ID <$> new) ∧
  ((Sender updatedMessage = currentUser ∧ Receiver updatedMessage = username) ∨
   (Sender updatedMessage = username ∧ Receiver updatedMessage = currentUser) →
   updatedMessage ∈ new ∧ ∀ y, y ∈ new → ID y = ID updatedMessage → y = updatedMessage) ∧
  (∀ y, y ∈ prevMessages → ID y ≠ ID updatedMessage → y ∈ new) ∧
  (¬ ((Sender updatedMessage = currentUser ∧ Receiver updatedMessage = username) ∨
      (Sender updatedMessage = username ∧ Receiver updatedMessage = currentUser)) →
   new = prevMessages).
Proof.
  intros Hnd new. subst new.
  refine ((λ H5 H1234, match H1234 with
                       | conj a (conj b (conj c d)) => conj a (conj b (conj c (conj d H5)))
                       end) _ _).
  { intros Hn. unfold onmessage. by rewrite decide_False. }
  destruct (onmessage_cases currentUser username updatedMessage prevMessages)
    as [[E Hn]|[[E Hnew]|(i & m0 & E & Hi & Hid & Hlt)]]; rewrite E.
  - by split_and!.
  - split_and!.
    + rewrite fmap_app. apply NoDup_app. split; [done|]. split; [|apply NoDup_singleton].
      intros k (y & -> & Hy)%list_elem_of_fmap Hk%list_elem_of_singleton.
      by apply (Hnew y).
    + rewrite fmap_app. by apply prefix_app_r.
    + intros _. split; [apply elem_of_app; right; left|].
      intros y [Hy| ->%list_elem_of_singleton]%elem_of_app Hid; [|done].
      by destruct (Hnew y Hy).
    + intros y Hy _. apply elem_of_app. by left.
  - pose proof (lookup_lt_Some _ _ _ Hi) as Hlen.
    assert (Hids : ID <$> <[i := updatedMessage]> prevMessages = ID <$> prevMessages).
    { rewrite list_fmap_insert. apply list_insert_id. rewrite list_lookup_fmap, Hi. simpl.
      by rewrite Hid. }
    rewrite Hids. split_and!; [done|done|..].
    + intros _. split.
      * apply list_elem_of_lookup. exists i. by rewrite list_lookup_insert_eq.
      * intros y (k & Hk)%list_elem_of_lookup Hyid.
        destruct (decide (k = i)) as [->|n].
        -- rewrite list_lookup_insert_eq in Hk by done. by injection Hk.
        -- rewrite list_lookup_insert_ne in Hk by done. exfalso. apply n.
           apply (NoDup_lookup _ k i (ID updatedMessage) Hnd).
           ++ rewrite list_lookup_fmap, Hk. simpl. by rewrite Hyid.
           ++ rewrite list_lookup_fmap, Hi. simpl. by rewrite Hid.
    + intros y (k & Hk)%list_elem_of_lookup Hyid.
      apply list_elem_of_lookup. exists k. rewrite list_lookup_insert_ne; [done|].
      intros ->. rewrite Hi in Hk. injection Hk as ->. done.
Qed.

(** ** The chat view and the store *)

Lemma conversation_ids_NoDup (d : DB) (a b : string) :
  ids_ok d → NoDup (ID <$> select_conversation a b d).
Proof.
  intros [Hs _]. unfold select_conversation. rewrite <- list_fmap_compose.
  pose proof (StronglySorted_filter id_before (between a b) _ Hs) as Hf.
  apply NoDup_alt. intros i j x Hi Hj.
  apply list_lookup_fmap_Some in Hi as (ri & -> & Hri).
  apply list_lookup_fmap_Some in Hj as (rj & Hx & Hrj). simpl in Hx.
  apply fmt_d_inj in Hx.
  destruct (Nat.lt_trichotomy i j) as [Hij|[->|Hji]]; [|done|].
  - pose proof (StronglySorted_lookup _ _ i j ri rj Hf Hri Hrj Hij) as Hlt.
    unfold id_before in Hlt. lia.
  - pose proof (StronglySorted_lookup _ _ j i rj ri Hf Hrj Hri Hji) as Hlt.
    unfold id_before in Hlt. lia.
Qed.

Lemma row_of_id (d : DB) (M : string) (msg : Message) (r : MessageRow) :
  ids_ok d → message_at d M = Some msg → r ∈ messages d → has_id M r → to_message r = msg.
Proof.
  intros Hids Hmsg Hr Hid. unfold message_at, select_message in Hmsg.
  rewrite (list_filter_iff _ (has_id (fmt_d (row_id r)))) in Hmsg.
  - rewrite (ids_ok_select d r Hids Hr) in Hmsg. by injection Hmsg.
  - intros x. rewrite (has_id_same M r x Hid). symmetry. apply has_id_fmt_d.
Qed.

Lemma conversation_after_counts (d : DB) (a b M : string) (msg : Message) (du dd : Z) :
  ids_ok d → message_at d M = Some msg →
  select_conversation a b (update_counts du dd M d) =
  (λ m, if decide (ID m = ID msg) then add_tally du dd msg else m)
    <$> select_conversation a b d.
Proof.
  intros Hids Hmsg. unfold select_conversation, update_counts. simpl.
  assert (Hrows : ∀ r, r ∈ messages d → has_id M r → to_message r = msg)
    by (intros r; by apply row_of_id).
  destruct (message_row _ _ _ Hmsg) as (r0 & _ & Hid0 & Hto0).
  assert (Hother : ∀ r, ¬ has_id M r → ID (to_message r) ≠ ID msg).
  { intros r Hn E. apply Hn. rewrite <- Hto0 in E. simpl in E. apply fmt_d_inj in E.
    by apply (has_id_same M r0 r Hid0). }
  induction (messages d) as [|r l IH]; [done|].
  assert (IH' := IH (λ x Hx, Hrows x (list_elem_of_further _ _ _ Hx))).
  rewrite fmap_cons, !filter_cons.
  destruct (decide (has_id M r)) as [Hid|Hn].
  - rewrite (decide_ext _ (between a b r)) by done.
    destruct (decide (between a b r)); [|done].
    rewrite !fmap_cons, IH'. f_equal.
    rewrite decide_True by (by rewrite (Hrows r (list_elem_of_here _ _) Hid)).
    rewrite <- (Hrows r (list_elem_of_here _ _) Hid). done.
  - destruct (decide (between a b r)); [|done].
    rewrite !fmap_cons, IH'. f_equal. rewrite decide_False; [done|]. by apply Hother.
Qed.

Lemma onmessage_known (a b : string) (m m0 : Message) (view : list Message) :
  NoDup (ID <$> view) → m0 ∈ view → ID m0 = ID m →
  (Sender m = a ∧ Receiver m = b) ∨ (Sender m = b ∧ Receiver m = a) →
  onmessage a b m view = (λ y, if decide (ID y = ID m) then m else y) <$> view.
Proof.
  intros Hnd Hm0 Hid Hrel.
  destruct (onmessage_cases a b m view)
    as [[E Hn]|[[E Hnew]|(i & m1 & E & Hi & Hid1 & Hlt)]]; rewrite E.
  - done.
  - by destruct (Hnew m0 Hm0).
  - pose proof (lookup_lt_Some _ _ _ Hi) as Hlen.
    apply list_eq. intros j. rewrite list_lookup_fmap.
    destruct (decide (j = i)) as [->|n].
    + rewrite list_lookup_insert_eq by done. rewrite Hi. simpl. by rewrite decide_True.
    + rewrite list_lookup_insert_ne by done.
      destruct (view !! j) as [y|] eqn:Hj; [|done]. simpl.
      rewrite decide_False; [done|]. intros Hy. apply n.
      apply (NoDup_lookup _ j i (ID m) Hnd).
      * rewrite list_lookup_fmap, Hj. simpl. by rewrite Hy.
      * rewrite list_lookup_fmap, Hi. simpl. by rewrite Hid1.
Qed.

(** X21: the event a committed vote pushes brings a chat view up to
    date: applied by the client to what a read of any conversation
    answered before the vote, it gives what a read of that conversation
    answers after it. *)
Theorem vote_event_updates_view (rs : list Request) (f : VoteFaults) (t : VoteType)
    (U M : string) (msg : Message) (currentUser username : string) :
  let s := run rs in
  let s' := fst (castVote f t U M s) in
  store_up f →
  message_at (db s) M = Some msg →
  ∃ updated,
    message_at (db s') M = Some updated ∧
    onmessage currentUser username updated (select_conversation currentUser username (db s))
      = select_conversation currentUser username (db s').
Proof.
  intros s s' (Fb & Fv & Fc & Fe & Fu & Fm) Hmsg.
  pose proof (run_ids_ok rs) as Hids. pose proof (run_store_ok rs) as Hok.
  fold s in Hids, Hok.
  assert (∃ du dd tx, vote_write U M (db s) tx ∧ db s' = update_counts du dd M tx)
    as (du & dd & tx & Hw & Hdb).
  { subst s'.
    destruct (castVote_tx f t U M s) as [[E Hn]|(up & down & du & dd & tx & Hw & E)].
    - exfalso. apply Hn.
      by destruct (castVote_step f t U M s msg) as (Hr & _); [repeat split|..].
    - rewrite E, finish_vote_db, Fu, Fm. simpl. by exists du, dd, tx. }
  destruct (vote_write_frame U M _ tx Hw) as (Hm & Hn & _).
  assert (Hconv : ∀ a b, select_conversation a b tx = select_conversation a b (db s))
    by (intros a b; unfold select_conversation; by rewrite Hm).
  assert (Hidstx : ids_ok tx) by (unfold ids_ok; by rewrite Hm, Hn).
  assert (Hmsgtx : message_at tx M = Some msg)
    by (unfold message_at, select_message in *; by rewrite Hm).
  exists (add_tally du dd msg). rewrite Hdb. split.
  - unfold message_at in *. rewrite select_message_update_counts.
    by destruct (select_message M tx); [|injection Hmsgtx as ->].
  - rewrite (conversation_after_counts tx _ _ M msg du dd Hidstx Hmsgtx), Hconv.
    destruct (message_row _ _ _ Hmsg) as (r0 & Hr0 & Hid0 & Hto0).
    destruct (decide (between currentUser username r0)) as [Hb|Hnb].
    + rewrite (onmessage_known _ _ _ msg).
      * done.
      * by apply conversation_ids_NoDup.
      * unfold select_conversation. rewrite <- Hto0. apply list_elem_of_fmap_2.
        by apply list_elem_of_filter.
      * done.
      * simpl. rewrite <- Hto0. exact Hb.
    + unfold onmessage. rewrite decide_False by (simpl; rewrite <- Hto0; exact Hnb).
      symmetry. erewrite list_fmap_ext; [apply list_fmap_id|].
      intros i y Hy. simpl. rewrite decide_False; [done|]. intros Hy'.
      apply list_elem_of_lookup_2 in Hy.
      unfold select_conversation in Hy.
      apply list_elem_of_fmap in Hy as (r & -> & [Hbr Hr]%list_elem_of_filter).
      apply Hnb. assert (to_message r = to_message r0) as E.
      { rewrite Hto0. apply (row_of_id (db s) M); [done..|].
        apply (has_id_same M r0 r Hid0).
        rewrite <- Hto0 in Hy'. simpl in Hy'. by apply fmt_d_inj in Hy'. }
      injection E as _ Es Er _ _ _. unfold between in *. by rewrite <- Es, <- Er.
Qed.

(** X22: the event pushed for a message sent without counters, as the
    chat page sends it, brings a chat view up to date: the message
    answered (and dispatched) is the request's with the assigned id, and
    applied by the client to what a read of any conversation answered
    before the send, it gives what a read of that conversation answers
    after it. *)
Theorem send_event_updates_view (rs : list Request) (msg : Message)
    (currentUser username : string) :
  let s := run rs in
  let s' := fst (sendMessageHandler false (BindOk msg) s) in
  let msg' := mkMessage (fmt_d (next_id (db s))) (Sender msg) (Receiver msg) (Content msg)
                        (Upvotes msg) (Downvotes msg) in
  Upvotes msg = 0 → Downvotes msg = 0 →
  snd (sendMessageHandler false (BindOk msg) s)
    = mkResponse Http.StatusCreated (JMessage msg') ∧
  onmessage currentUser username msg' (select_conversation currentUser username (db s))
    = select_conversation currentUser username (db s').
Proof.
  intros s s' msg' Hu Hd. split; [done|].
  pose proof (run_ids_ok rs) as [_ Hbelow]. fold s in Hbelow.
  assert (Hdb : messages (db s') =
                messages (db s) ++ [mkMessageRow (next_id (db s)) (Sender msg) (Receiver msg)
                                                 (Content msg) 0 0]).
  { subst s'. unfold sendMessageHandler. simpl. by rewrite handleMessages_db. }
  unfold select_conversation at 2. rewrite Hdb, filter_app, fmap_app.
  fold (select_conversation currentUser username (db s)).
  unfold onmessage. simpl.
  rewrite filter_cons, filter_nil.
  rewrite (decide_ext _ (between currentUser username
                           (mkMessageRow (next_id (db s)) (Sender msg) (Receiver msg)
                                         (Content msg) 0 0))) by done.
  destruct (decide (between _ _ _)); [|by rewrite app_nil_r].
  replace (findIndex _ _) with (@None nat).
  - subst msg'. simpl. by rewrite Hu, Hd.
  - symmetry. apply findIndex_None.
    intros m (r & -> & [_ Hr]%list_elem_of_filter)%list_elem_of_fmap Hid. simpl in Hid.
    apply fmt_d_inj in Hid. specialize (Hbelow r Hr). lia.
Qed.

End Server.

(** * Examples *)

(** The examples are run on a store that reads decimal numerals and
    refuses every other text. *)
#[local] Existing Instance decimal_only.

Lemma tally_counts_vote_records_witness :
  let rs := [PostMessages false (BindOk (mkMessage "" "alice" "bob" "hi" 0 0));
             PostUpvote no_faults "bob" "1"; PostDownvote no_faults "carol" "1"] in
  let r := mkMessageRow 1 "alice" "bob" "hi" 1 1 in
  r ∈ messages (db (run rs)) ∧
  row_upvotes r = count_votes "upvote" "1" (user_votes (db (run rs))) ∧
  row_upvotes r + row_downvotes r = 2.
Proof.
  intros rs r.
  assert (Hr : r ∈ messages (db (run rs))) by (vm_compute; left).
  split; [exact Hr|].
  destruct (tally_counts_vote_records rs r Hr) as (Hu & _).
  split; [exact Hu|reflexivity].
Defined.

Lemma castVote_follows_toggle_witness :
  let s := run [PostMessages false (BindOk (mkMessage "" "alice" "bob" "hi" 0 0));
                PostDownvote no_faults "bob" "1"] in
  let s' := fst (castVote no_faults upvote "bob" "1" s) in
  vote_state (db s) "bob" "1" = DOWNVOTED ∧
  vote_state (db s') "bob" "1" = UPVOTED ∧
  message_at (db s') "1" = Some (mkMessage "1" "alice" "bob" "hi" (0 + 1) (1 + -1)).
Proof.
  intros s s'. split; [reflexivity|].
  apply (castVote_follows_toggle no_faults upvote "bob" "1" s
           (mkMessage "1" "alice" "bob" "hi" 0 1)).
  - apply no_faults_store_up.
  - apply run_store_ok.
  - reflexivity.
Defined.

Lemma upvote_twice_witness :
  let s := run [PostMessages false (BindOk (mkMessage "" "bob" "carol" "hi" 0 0));
                PostUpvote no_faults "bob" "1"; PostUpvote no_faults "carol" "1";
                PostDownvote no_faults "dave" "1"] in
  let s1 := fst (castVote no_faults upvote "alice" "1" s) in
  let s2 := fst (castVote no_faults upvote "alice" "1" s1) in
  tally (db s) "1" = Some (2, 1) ∧ vote_state (db s) "alice" "1" = NONE ∧
  message_at (db s1) "1" = Some (mkMessage "1" "bob" "carol" "hi" 3 1) ∧
  message_at (db s2) "1" = Some (mkMessage "1" "bob" "carol" "hi" 2 1) ∧
  vote_state (db s2) "alice" "1" = NONE.
Proof.
  intros s s1 s2. split; [reflexivity|]. split; [reflexivity|].
  exact (upvote_twice no_faults no_faults "alice" "1" s
           (mkMessage "1" "bob" "carol" "hi" 2 1)
           no_faults_store_up no_faults_store_up (run_store_ok _) eq_refl).
Defined.

(** C3, as stated, fails when the user starts from a downvote: the two
    upvotes succeed and leave the user without a vote and the message
    with one downvote less. *)
Lemma downvote_then_two_upvotes_differs :
  let s := run [PostMessages false (BindOk (mkMessage "" "bob" "alice" "hi" 0 0));
                PostDownvote no_faults "alice" "1"] in
  let r1 := castVote no_faults upvote "alice" "1" s in
  let r2 := castVote no_faults upvote "alice" "1" (fst r1) in
  snd r1 = vote_ok ∧ snd r2 = vote_ok ∧
  vote_state (db s) "alice" "1" = DOWNVOTED ∧ tally (db s) "1" = Some (0, 1) ∧
  vote_state (db (fst r2)) "alice" "1" = NONE ∧ tally (db (fst r2)) "1" = Some (0, 0) ∧
  ¬ (tally (db (fst r2)) "1" = tally (db s) "1" ∧
     vote_state (db (fst r2)) "alice" "1" = vote_state (db s) "alice" "1").
Proof. vm_compute. repeat split; try reflexivity. intros [H _]. discriminate H. Qed.

Lemma cache_mirror_written_in_transaction_witness :
  let s := run [PostMessages false (BindOk (mkMessage "" "alice" "bob" "hi" 0 0))] in
  let r := castVote no_faults upvote "bob" "1" s in
  snd r = vote_ok ∧
  rdb (fst r) !! "message:1" = Some (<["downvotes" := 0]> (<["upvotes" := 1]> ∅)).
Proof.
  intros s r. split; [reflexivity|].
  destruct (cache_mirror_written_in_transaction no_faults upvote "bob" "1" s)
    as (_ & _ & H).
  destruct (H (or_introl eq_refl)) as (up & down & Ht & Hc).
  injection Ht as <- <-. fold r in Hc. rewrite Hc. reflexivity.
Defined.

(** C4, as stated, fails when the commit fails: the cache already holds
    the counters of the transaction that did not commit, and the store
    still has the old ones. *)
Lemma cache_written_though_commit_failed :
  let s := run [PostMessages false (BindOk (mkMessage "" "alice" "bob" "hi" 0 0))] in
  let f := mkVoteFaults false false false false false false false true false in
  let r := castVote f upvote "bob" "1" s in
  snd r = fail500 "Failed to commit transaction" ∧
  db (fst r) = db s ∧ tally (db (fst r)) "1" = Some (0, 0) ∧
  rdb s !! "message:1" = None ∧
  rdb (fst r) !! "message:1" = Some (<["downvotes" := 0]> (<["upvotes" := 1]> ∅)) ∧
  rdb (fst r) ≠ rdb s.
Proof.
  intros s f r. split_and!; try reflexivity.
  intros H. apply (f_equal (λ c, c !! "message:1")) in H. discriminate H.
Qed.



Lemma registry_last_registration_wins_witness :
  let s := run [GetWs false "alice"; GetWs false "bob"] in
  clients (register "alice" s) !! "alice" = Some (mkClient "alice" 2) ∧
  conns (register "alice" s) !! 0%nat = conns s !! 0%nat ∧
  clients (wsRead 1 None s) = deregister "bob" (clients s).
Proof.
  intros s.
  destruct (registry_last_registration_wins [GetWs false "alice"; GetWs false "bob"] "alice")
    as (_ & H1 & _ & _ & H2 & _ & _ & _ & _).
  destruct (registry_last_registration_wins [GetWs false "alice"; GetWs false "bob"] "bob")
    as (_ & _ & _ & _ & _ & _ & _ & _ & H3).
  split; [exact H1|]. split.
  - apply (H2 (mkClient "alice" 0)). reflexivity.
  - apply (H3 1%nat (mkWsConn "bob" false false false [])); reflexivity.
Defined.

(** C6, as stated, fails on the prior channel: after a second
    registration of the same user the first connection is still there and
    still open, and a message read from it is still dispatched. *)
Lemma reregistration_leaves_prior_channel_open :
  let s := run [GetWs false "alice"] in
  let s' := register "alice" s in
  let m := mkMessage "9" "alice" "bob" "still here" 0 0 in
  clients s !! "alice" = Some (mkClient "alice" 0) ∧
  clients s' !! "alice" = Some (mkClient "alice" 1) ∧
  conns s' !! 0%nat = Some (mkWsConn "alice" false false false []) ∧
  (ws_closed <$> conns s' !! 0%nat) ≠ Some true ∧
  sent_on (wsRead 0 (Some m) s') 1 = [m].
Proof. vm_compute. split_and!; try reflexivity. discriminate. Qed.



Lemma sendMessage_echoes_request_counters_witness :
  let s := run [GetWs false "bob"] in
  let r := sendMessageHandler false (BindOk (mkMessage "x" "alice" "bob" "hi" 5 7)) s in
  message_at (db (fst r)) "1" = Some (mkMessage "1" "alice" "bob" "hi" 0 0) ∧
  snd r = mkResponse 201 (JMessage (mkMessage "1" "alice" "bob" "hi" 5 7)) ∧
  mkMessage "1" "alice" "bob" "hi" 5 7 ∈ sent_on (fst r) 0 ∧
  mkMessage "1" "alice" "bob" "hi" 0 0 ≠ mkMessage "1" "alice" "bob" "hi" 5 7.
Proof.
  intros s r.
  destruct (sendMessage_echoes_request_counters [GetWs false "bob"]
              (mkMessage "x" "alice" "bob" "hi" 5 7))
    as (_ & Hstored & Hresp & _ & Hpush & Hdiff).
  split; [exact Hstored|]. split; [exact Hresp|]. split.
  - apply (Hpush "bob" (mkClient "bob" 0)); [by right|reflexivity|reflexivity].
  - apply Hdiff. left. discriminate.
Defined.

Lemma wsRead_forwards_without_storing_witness :
  let s := run [GetWs false "alice"; GetWs false "bob"; GetWs false "mallory"] in
  let forged := mkMessage "77" "alice" "bob" "not from alice" 9 9 in
  let s' := wsRead 2 (Some forged) s in
  (ws_user <$> conns s !! 2%nat) = Some "mallory" ∧
  forged ∈ sent_on s' 0 ∧ forged ∈ sent_on s' 1 ∧
  db s' = db s ∧
  snd (getMessagesHandler rows_ok "alice" "bob" s') = mkResponse 200 (JMessages []).
Proof.
  intros s forged s'. split; [reflexivity|].
  destruct (wsRead_forwards_without_storing
              [GetWs false "alice"; GetWs false "bob"; GetWs false "mallory"]
              2 (mkWsConn "mallory" false false false []) forged
              eq_refl eq_refl eq_refl eq_refl) as (_ & Hdb & Hget & Hpush).
  split; [apply (Hpush "alice" (mkClient "alice" 0)); [by left|reflexivity|reflexivity]|].
  split; [apply (Hpush "bob" (mkClient "bob" 1)); [by right|reflexivity|reflexivity]|].
  split; [exact Hdb|]. rewrite Hget. reflexivity.
Defined.

Lemma failed_vote_changes_nothing_witness :
  let s := run [GetWs false "alice";
                PostMessages false (BindOk (mkMessage "" "alice" "bob" "hi" 0 0))] in
  let f := mkVoteFaults false false false false false false false true false in
  snd (castVote f upvote "bob" "1" s) = fail500 "Failed to commit transaction" ∧
  db (fst (castVote f upvote "bob" "1" s)) = db s ∧
  conns (fst (castVote f upvote "bob" "1" s)) = conns s.
Proof.
  intros s f. split; [reflexivity|].
  destruct (failed_vote_changes_nothing f upvote "bob" "1" s) as (H1 & _ & H3);
    [discriminate|]. by split.
Defined.

Lemma vote_touches_one_pair_witness :
  let s := run [PostMessages false (BindOk (mkMessage "" "alice" "bob" "one" 0 0));
                PostMessages false (BindOk (mkMessage "" "bob" "alice" "two" 0 0));
                PostUpvote no_faults "carol" "1"] in
  let d' := db (fst (castVote no_faults downvote "bob" "2" s)) in
  vote_state d' "carol" "1" = UPVOTED ∧ select_message "1" d' = select_message "1" (db s).
Proof.
  intros s d'.
  destruct (vote_touches_one_pair no_faults downvote "bob" "2" s) as (Hv & Hm & _).
  split.
  - destruct (Hv "carol" "1") as [_ Hs]; [left; discriminate|]. exact Hs.
  - apply Hm. discriminate.
Defined.

Lemma votes_conserve_tally_witness :
  let s := run [PostMessages false (BindOk (mkMessage "" "alice" "bob" "hi" 0 0));
                PostUpvote no_faults "carol" "1"] in
  let ts := [(no_faults, upvote); (no_faults, downvote); (no_faults, downvote);
             (no_faults, upvote); (no_faults, downvote)] in
  vote_state (db (castVotes ts "bob" "1" s)) "bob" "1" = DOWNVOTED ∧
  message_at (db (castVotes ts "bob" "1" s)) "1"
    = Some (mkMessage "1" "alice" "bob" "hi" 1 1).
Proof.
  intros s ts.
  assert (Hts : Forall (λ ft, store_up (fst ft)) ts).
  { repeat constructor. }
  destruct (votes_conserve_tally ts "bob" "1" s (mkMessage "1" "alice" "bob" "hi" 1 0)
              Hts (run_store_ok _) eq_refl) as [H1 H2].
  split; [rewrite H1; reflexivity|].
  rewrite H2. reflexivity.
Defined.

Lemma vote_pushes_new_tally_witness :
  let rs := [GetWs false "alice"; GetWs false "carol";
             PostMessages false (BindOk (mkMessage "" "alice" "bob" "hi" 0 0))] in
  let s' := fst (castVote no_faults upvote "carol" "1" (run rs)) in
  sent_on s' 0 = [mkMessage "1" "alice" "bob" "hi" 0 0; mkMessage "1" "alice" "bob" "hi" 1 0] ∧
  sent_on s' 1 = [].
Proof.
  intros rs s'.
  destruct (vote_pushes_new_tally rs no_faults upvote "carol" "1"
              (mkMessage "1" "alice" "bob" "hi" 0 0) "alice"
              no_faults_store_up eq_refl eq_refl) as (updated & Hm & _ & _ & Hp & Hv);
    [by left|].
  fold s' in Hm, Hp, Hv. injection Hm as <-.
  split; [apply (proj1 (proj2 Hp)); discriminate|].
  destruct Hv as [_ Hk]; [discriminate..|].
  unfold sent_on.
  rewrite (Hk 1%nat (mkWsConn "carol" false false false []) eq_refl eq_refl).
  reflexivity.
Defined.

Lemma sent_message_is_read_back_witness :
  let s := run [PostMessages false (BindOk (mkMessage "" "alice" "bob" "one" 0 0));
                PostMessages false (BindOk (mkMessage "" "alice" "carol" "other" 0 0))] in
  let s' := fst (sendMessageHandler false (BindOk (mkMessage "" "bob" "alice" "two" 3 3)) s) in
  snd (getMessagesHandler rows_ok "alice" "bob" s') =
    mkResponse 200 (JMessages [mkMessage "1" "alice" "bob" "one" 0 0;
                               mkMessage "3" "bob" "alice" "two" 0 0]) ∧
  snd (getMessagesHandler rows_ok "alice" "carol" s') =
    mkResponse 200 (JMessages [mkMessage "2" "alice" "carol" "other" 0 0]).
Proof.
  intros s s'.
  destruct (sent_message_is_read_back (mkMessage "" "bob" "alice" "two" 3 3) s)
    as (H1 & _ & H2 & H3).
  split.
  - fold s' in H1, H2. rewrite <- (H2 rows_ok) in H1. exact H1.
  - fold s' in H3. rewrite H3; [reflexivity|].
    simpl. intros [[_ H]|[_ H]]; discriminate H.
Defined.

Lemma ids_grow_and_identify_witness :
  let rs := [PostMessages false (BindOk (mkMessage "" "alice" "bob" "one" 0 0));
             PostUpvote no_faults "bob" "1";
             PostMessages false (BindOk (mkMessage "77" "bob" "alice" "two" 0 0))] in
  row_id (mkMessageRow 1 "alice" "bob" "one" 1 0)
    < row_id (mkMessageRow 2 "bob" "alice" "two" 0 0) ∧
  select_message "1" (db (run rs)) = [mkMessage "1" "alice" "bob" "one" 1 0].
Proof.
  intros rs.
  destruct (ids_grow_and_identify rs 0 1 (mkMessageRow 1 "alice" "bob" "one" 1 0)
              (mkMessageRow 2 "bob" "alice" "two" 0 0) eq_refl eq_refl)
    as (H1 & _ & H3 & _); [lia|].
  split; [exact H1|exact H3].
Defined.

Lemma pushes_stay_between_participants_witness :
  let rs := [GetWs false "alice"; GetWs false "bob"; GetWs false "carol";
             PostMessages false (BindOk (mkMessage "" "alice" "bob" "hi" 0 0));
             PostUpvote no_faults "carol" "1"] in
  sent_on (run rs) 2 = [] ∧
  (Sender (mkMessage "1" "alice" "bob" "hi" 1 0) = "bob" ∨
   Receiver (mkMessage "1" "alice" "bob" "hi" 1 0) = "bob").
Proof.
  intros rs. split; [reflexivity|].
  apply (pushes_stay_between_participants rs 1
           (mkWsConn "bob" false false false
              [mkMessage "1" "alice" "bob" "hi" 0 0; mkMessage "1" "alice" "bob" "hi" 1 0])
           (mkMessage "1" "alice" "bob" "hi" 1 0)).
  - reflexivity.
  - right. left.
Defined.

Lemma registry_holds_live_connections_witness :
  let rs := [GetWs false "alice"; GetWs false "bob"; WsBreak 0;
             PostMessages false (BindOk (mkMessage "" "bob" "alice" "hi" 0 0));
             WsBreak 1] in
  clients (run rs) !! "alice" = None ∧
  clients (run rs) !! "bob" = Some (mkClient "bob" 1) ∧
  ∃ w, conns (run rs) !! 1%nat = Some w ∧ ws_closed w = false ∧
       writable (run rs) 1 = negb (ws_broken w).
Proof.
  intros rs. split; [reflexivity|]. split; [reflexivity|].
  destruct (registry_holds_live_connections rs "bob" (mkClient "bob" 1) eq_refl)
    as (_ & w & Hw & _ & Hc & _ & Hwr).
  by exists w.
Defined.

Lemma connections_only_grow_witness :
  let rs := [GetWs false "alice";
             PostMessages false (BindOk (mkMessage "" "alice" "bob" "one" 0 0));
             WsRead 0 None] in
  let rs' := [GetWs false "bob";
              PostMessages false (BindOk (mkMessage "" "bob" "alice" "two" 0 0))] in
  ∃ w', conns (run (rs ++ rs')) !! 0%nat = Some w' ∧
        ws_closed w' = true ∧ ws_sent w' = [mkMessage "1" "alice" "bob" "one" 0 0].
Proof.
  intros rs rs'.
  destruct (connections_only_grow rs rs' 0
              (mkWsConn "alice" true false true [mkMessage "1" "alice" "bob" "one" 0 0])
              eq_refl) as (w' & Hw' & _ & _ & Hc & _).
  exists w'. split; [exact Hw'|]. by apply Hc.
Defined.

Lemma cache_agrees_after_vote_witness :
  let s := run [PostMessages false (BindOk (mkMessage "" "alice" "bob" "hi" 0 0));
                PostUpvote no_faults "alice" "1"] in
  let s' := fst (castVote no_faults downvote "bob" "1" s) in
  ∃ entry, rdb s' !! "message:1" = Some entry ∧
           entry !! "upvotes" = Some 1 ∧ entry !! "downvotes" = Some 1.
Proof.
  intros s s'.
  destruct (cache_agrees_after_vote no_faults downvote "bob" "1" s
              (mkMessage "1" "alice" "bob" "hi" 1 0)
              no_faults_store_up eq_refl eq_refl (run_store_ok _) eq_refl)
    as (up & down & entry & Ht & He & Hu & Hd & _).
  fold s' in Ht, He. injection Ht as <- <-.
  exists entry. split; [exact He|]. split; [exact Hu|exact Hd].
Defined.

(** A vote under the id text 01 is a vote on message 1; its cache entry
    is filed under the text as it was given. *)
Lemma cache_holds_tallies_of_stored_messages_witness :
  let rs := [PostMessages false (BindOk (mkMessage "" "alice" "bob" "hi" 0 0));
             PostUpvote no_faults "bob" "01"; PostUpvote no_faults "bob" "2"] in
  message_at (db (run rs)) "1" = Some (mkMessage "1" "alice" "bob" "hi" 1 0) ∧
  vote_state (db (run rs)) "bob" "1" = UPVOTED ∧
  rdb (run rs) !! "message:1" = None ∧ rdb (run rs) !! "message:2" = None ∧
  ∃ r m, r ∈ messages (db (run rs)) ∧ read_int m = Some (row_id r) ∧
         "message:01" = "message:" +:+ m.
Proof.
  intros rs. split; [reflexivity|]. split; [reflexivity|].
  split; [reflexivity|]. split; [reflexivity|].
  exact (proj1 (proj1 (cache_holds_tallies_of_stored_messages rs) "message:01"
                  (<["downvotes" := 0]> (<["upvotes" := 1]> ∅)) eq_refl)).
Defined.


Lemma onmessage_keeps_one_message_per_id_witness :
  let view := [mkMessage "1" "alice" "bob" "one" 0 0; mkMessage "2" "bob" "alice" "two" 0 0] in
  let event := mkMessage "1" "alice" "bob" "one" 1 0 in
  onmessage "bob" "alice" event view = [event; mkMessage "2" "bob" "alice" "two" 0 0] ∧
  NoDup (ID <$> onmessage "bob" "alice" event view).
Proof.
  intros view event. split; [reflexivity|].
  apply (onmessage_keeps_one_message_per_id "bob" "alice" event view).
  apply NoDup_cons. split; [|apply NoDup_singleton].
  intros H%list_elem_of_singleton. discriminate H.
Defined.

Lemma vote_event_updates_view_witness :
  let rs := [PostMessages false (BindOk (mkMessage "" "alice" "bob" "one" 0 0));
             PostMessages false (BindOk (mkMessage "" "bob" "alice" "two" 0 0))] in
  let s' := fst (castVote no_faults upvote "bob" "1" (run rs)) in
  onmessage "bob" "alice" (mkMessage "1" "alice" "bob" "one" 1 0)
    (select_conversation "bob" "alice" (db (run rs)))
  = select_conversation "bob" "alice" (db s').
Proof.
  intros rs s'.
  destruct (vote_event_updates_view rs no_faults upvote "bob" "1"
              (mkMessage "1" "alice" "bob" "one" 0 0) "bob" "alice"
              no_faults_store_up eq_refl) as (updated & Hu & Hv).
  fold s' in Hu, Hv. injection Hu as <-. exact Hv.
Defined.

Lemma send_event_updates_view_witness :
  let rs := [PostMessages false (BindOk (mkMessage "" "alice" "bob" "one" 0 0))] in
  let s' := fst (sendMessageHandler false (BindOk (mkMessage "" "bob" "alice" "two" 0 0))
                   (run rs)) in
  onmessage "alice" "bob" (mkMessage "2" "bob" "alice" "two" 0 0)
    [mkMessage "1" "alice" "bob" "one" 0 0]
  = select_conversation "alice" "bob" (db s').
Proof.
  intros rs s'.
  exact (proj2 (send_event_updates_view rs (mkMessage "" "bob" "alice" "two" 0 0)
                  "alice" "bob" eq_refl eq_refl)).
Defined.
